(** * A shallow embedding of [app.py]: a CSV-backed student record service

    The development follows the source file top to bottom: the module
    globals read from [config.json], the storage gateway ([read_csv],
    [write_csv]), the record store routes ([update_record],
    [delete_record]) and the aggregation engine ([student_average],
    [worker], [average_scores]).

    Modelling conventions
    - a CSV row, as [csv.DictReader] yields it, is a Python [dict] from
      column names to cells: a [gmap string value]; a cell is a [str], or
      [None] when the row is shorter than the header (the surplus cells of
      a row longer than the header, which the reader files under the key
      [None], are not represented); the JSON object of an update request
      is a map of the same type: its values are strings or [null];
    - Python exceptions are an explicit error type, and a function that can
      raise returns a [result];
    - floating point is IEEE binary64, through Rocq's primitive floats;
    - the thread pool of [average_scores] is a transition system on the
      shared queue, the shared result list and one control state per
      worker thread; a run is driven by a schedule, the list of thread
      numbers in the order the interpreter lets them take a step;
    - logging has no effect on any value and is left out. *)

From Stdlib Require Import ZArith Floats Ascii String.
From stdpp Require Import gmap strings list.

Open Scope string_scope.

(** ** Exceptions and results *)

Inductive exn :=
  | KeyError (key : string)
  | ValueError (msg : string)
  | TypeError
  | FileNotFoundError
  | PermissionError.

Global Instance exn_eq_dec : EqDecision exn.
Proof. solve_decision. Defined.

Inductive result (A : Type) :=
  | Ok (a : A)
  | Exn (e : exn).
Arguments Ok {A} a.
Arguments Exn {A} e.

(** Sequencing: an exception skips the rest of the block. *)
Global Instance result_bind : MBind result := λ A B k m,
  match m with
  | Ok a => k a
  | Exn e => Exn e
  end.

(** ** Cells, rows and derived records *)

Inductive value :=
  | VNone
  | VStr (s : string).

Global Instance value_eq_dec : EqDecision value.
Proof. solve_decision. Defined.

Abbreviation record := (gmap string value).

(** [record[key]] *)
Definition getitem (r : record) (key : string) : result value :=
  match r !! key with
  | Some v => Ok v
  | None => Exn (KeyError key)
  end.

(** The dict built by [student_average] for one student. *)
Record derived := Derived {
  d_Rollno : value;
  d_name : value;
  d_average : float
}.

(** An element of the shared [results] list: a derived record, or a
    one-character string (what [list.extend] makes of a [str] argument). *)
Inductive item :=
  | IDict (d : derived)
  | IStr (s : string).

(** ** The Python runtime

    Three built-ins are used by the source and not defined by it: the
    parser behind [float(s)] for a [str] ([None] stands for [ValueError]),
    [repr] of a [str], and [str] of a [dict] (its text depends on the
    insertion order of the keys, which a finite map does not keep). *)

Class PyRuntime := {
  float_of_str : string → option float;
  repr_str : string → string;
  str_dict : record → string
}.

(** ** Floating point: [float], [+], [/] and [round(x, 2)] *)

Definition float_of_Z (z : Z) : float :=
  match z with
  | Z0 => 0%float
  | Zpos _ => PrimFloat.of_uint63 (Uint63.of_Z z)
  | Zneg p => PrimFloat.opp (PrimFloat.of_uint63 (Uint63.of_Z (Zpos p)))
  end.

(** Nearest integer to [a / b], ties to even ([0 ≤ a], [0 < b]). *)
Definition div_half_even (a b : Z) : Z :=
  let q := (a / b)%Z in
  let r := (a mod b)%Z in
  if (2 * r <? b)%Z then q
  else if (b <? 2 * r)%Z then (q + 1)%Z
  else if Z.even q then q else (q + 1)%Z.

(** [round(x, 2)] on a float. CPython converts [x] to the decimal string
    with two digits after the point that is nearest to the exact binary
    value of [x] (ties to even) and reads that string back as the nearest
    double. Non-finite values and zeros round to themselves. A double
    [m * 2^e] with [-6 <= e] is a multiple of [1/64]: the decimal is
    within [0.005] of it, less than half the gap to its neighbours, and
    reading it back gives [x] again. Below that, the scaled integer
    [n = round(100 * m * 2^e)] is less than [2^53]: [n] and [100] are
    doubles and the nearest double to [n / 100] is their IEEE quotient. *)
Definition py_round2 (x : float) : float :=
  match Prim2SF x with
  | S754_finite s m e =>
      if (-6 <=? e)%Z then x
      else
        let n := div_half_even (100 * Zpos m) (2 ^ (- e)) in
        let r := PrimFloat.div (float_of_Z n) (float_of_Z 100) in
        if s then PrimFloat.opp r else r
  | _ => x
  end.

(** [float(v)] for a cell [v]: [float(None)] raises [TypeError]. *)
Definition py_float `{PyRuntime} (v : value) : result float :=
  match v with
  | VNone => Exn TypeError
  | VStr s =>
      match float_of_str s with
      | Some f => Ok f
      | None => Exn (ValueError ("could not convert string to float: " ++ repr_str s))
      end
  end.

(** [str(e)] for the exceptions [student_average] catches. *)
Definition str_exn `{PyRuntime} (e : exn) : string :=
  match e with
  | KeyError key => repr_str key
  | ValueError msg => msg
  | _ => ""
  end.

(** ** The aggregation engine: [student_average] *)

(** The body of the [try] block for one record. *)
Definition average_record `{PyRuntime} (record : record) : result derived :=
  english ← getitem record "english" ≫= py_float;
  maths ← getitem record "maths" ≫= py_float;
  science ← getitem record "science" ≫= py_float;
  let average :=
    py_round2 (PrimFloat.div (PrimFloat.add (PrimFloat.add english maths) science)
                             (float_of_Z 3)) in
  rollno ← getitem record "Rollno";
  name ← getitem record "name";
  Ok (Derived rollno name average).

Definition error_message `{PyRuntime} (record : record) (e : exn) : string :=
  "Error processing record " ++ str_dict record ++ ": " ++ str_exn e.

(** What [student_average] returns: the list [averages], or the message. *)
Inductive averages_or_message :=
  | Averages (averages : list derived)
  | Message (msg : string).

(** The [for] loop of [student_average], with the list [averages] built so
    far. [except (ValueError, KeyError)] returns the message at once; any
    other exception leaves the function. *)
Fixpoint student_average_loop `{PyRuntime} (records : list record)
    (averages : list derived) : result averages_or_message :=
  match records with
  | [] => Ok (Averages averages)
  | record :: rest =>
      match average_record record with
      | Ok d => student_average_loop rest (averages ++ [d])
      | Exn (KeyError key) => Ok (Message (error_message record (KeyError key)))
      | Exn (ValueError msg) => Ok (Message (error_message record (ValueError msg)))
      | Exn e => Exn e
      end
  end.

Definition student_average `{PyRuntime} (records : list record)
    : result averages_or_message :=
  student_average_loop records [].

(** [results.extend(chunk_results)]: a list contributes its elements, a
    [str] contributes its characters, one by one. *)
Fixpoint chars (s : string) : list item :=
  match s with
  | EmptyString => []
  | String c rest => IStr (String c EmptyString) :: chars rest
  end.

Definition extend_items (chunk_results : averages_or_message) : list item :=
  match chunk_results with
  | Averages averages => IDict <$> averages
  | Message msg => chars msg
  end.

(** ** Module globals, from [config.json] *)

Record config := Config {
  cfg_log_path : option string;
  cfg_file_path : option string;
  cfg_thread_size : option nat;
  cfg_queue_size : option nat
}.

Record globals := Globals {
  log_path : string;
  csv_file : string;
  num_threads : nat;
  queue_size : nat
}.

(** [config[...].get(key, default)] *)
Definition load_globals (cfg : config) : globals :=
  {| log_path := default "app.log" (cfg_log_path cfg);
     csv_file := default "data.csv" (cfg_file_path cfg);
     num_threads := default 10 (cfg_thread_size cfg);
     queue_size := default 10 (cfg_queue_size cfg) |}.

(** ** The storage gateway *)

(** A file of the file system: the rows a [DictReader] yields from it, or a
    file that exists and cannot be opened. A path that is not in the map
    does not exist. *)
Inductive file :=
  | Rows (rows : list record)
  | Locked.

Abbreviation filesystem := (gmap string file).

Definition py_open (fs : filesystem) (path : string) : result (list record) :=
  match fs !! path with
  | None => Exn FileNotFoundError
  | Some Locked => Exn PermissionError
  | Some (Rows rows) => Ok rows
  end.

(** The body of a JSON response. *)
Inductive body :=
  | JsonError (msg : string)
  | JsonMessage (msg : string)
  | JsonAverages (results : list item).

(** A view's return value: body and status code. *)
Definition response : Type := body * nat.

(** What [read_csv] hands to its caller: [list(reader)], or the response
    object made by [jsonify] in the [except] branch. *)
Inductive read_value :=
  | RecordList (records : list record)
  | ResponseObject (b : body).

Definition read_csv `{PyRuntime} (g : globals) (fs : filesystem) : result read_value :=
  match py_open fs (csv_file g) with
  | Ok rows => Ok (RecordList rows)
  | Exn FileNotFoundError =>
      Ok (ResponseObject (JsonError ("FileNotFoundError [Errno 2] No such file or directory: "
                                      ++ repr_str (csv_file g))))
  | Exn e => Exn e
  end.

(** Using the value of [read_csv] as a sequence of rows, as every caller
    does: a response object is not one. *)
Definition as_records (v : read_value) : result (list record) :=
  match v with
  | RecordList records => Ok records
  | ResponseObject _ => Exn TypeError
  end.

Definition fieldnames : list string := ["Rollno"; "name"; "english"; "maths"; "science"].

(** The text [csv.writer] puts in a cell: [None] and a missing key (the
    writer's [restval]) give the empty string. *)
Definition cell (v : option value) : string :=
  match v with
  | Some (VStr s) => s
  | _ => ""
  end.

(** [DictWriter._dict_to_list] with [extrasaction='raise']. The text of the
    exception lists the offending keys; no caller shows it. *)
Definition dict_to_list (row : record) : result (list string) :=
  if decide (dom row ⊆ list_to_set fieldnames)
  then Ok ((λ key, cell (row !! key)) <$> fieldnames)
  else Exn (ValueError "dict contains fields not in fieldnames").

(** The row a [DictReader] yields from a line the writer wrote. *)
Definition row_of_cells (cells : list string) : record :=
  list_to_map (zip fieldnames (VStr <$> cells)).

(** [writer.writerows(rows)]: the lines written, and the exception that
    stopped it, if any. *)
Fixpoint writerows (rows : list record) : list record * option exn :=
  match rows with
  | [] => ([], None)
  | row :: rest =>
      match dict_to_list row with
      | Exn e => ([], Some e)
      | Ok cells =>
          let '(written, err) := writerows rest in
          (row_of_cells cells :: written, err)
      end
  end.

(** [write_csv]: mode ['w'] truncates the file, then header and rows are
    written; what was written before an exception stays in the file. *)
Definition write_csv (g : globals) (rows : list record) (fs : filesystem)
    : result unit * filesystem :=
  match fs !! csv_file g with
  | Some Locked => (Exn PermissionError, fs)
  | _ =>
      let '(written, err) := writerows rows in
      (match err with Some e => Exn e | None => Ok tt end,
       <[csv_file g := Rows written]> fs)
  end.

(** ** The record store: [update_record] and [delete_record] *)

Definition valid_fields : list string := ["Rollno"; "name"; "english"; "maths"; "science"].

(** The loop that builds [filtered_data]. *)
Definition filter_data (data : gmap string value) : gmap string value :=
  filter (λ kv, kv.1 ∈ valid_fields) data.

(** The loop over [records]: the first record whose [Rollno] is [rollno]
    is updated in place ([dict.update]) and the loop stops. The boolean is
    [updated]. *)
Fixpoint update_loop (rollno : string) (filtered_data : gmap string value)
    (records : list record) : result (bool * list record) :=
  match records with
  | [] => Ok (false, [])
  | record :: rest =>
      v ← getitem record "Rollno";
      if decide (v = VStr rollno)
      then Ok (true, (filtered_data ∪ record) :: rest)
      else
        '(updated, rest') ← update_loop rollno filtered_data rest;
        Ok (updated, record :: rest')
  end.

(** The [try] block of a route: a response, or an exception, and the file
    system it leaves. *)
Definition attempt : Type := result response * filesystem.

(** [except Exception as e: return jsonify({"error": "An error occurred"}), 500] *)
Definition except_exception (a : attempt) : response * filesystem :=
  match a with
  | (Ok r, fs) => (r, fs)
  | (Exn _, fs) => ((JsonError "An error occurred", 500), fs)
  end.

(** [PUT /update/<rollno>] with JSON object [data]. *)
Definition update_record `{PyRuntime} (g : globals) (rollno : string)
    (data : gmap string value) (fs : filesystem) : response * filesystem :=
  except_exception
    match read_csv g fs with
    | Exn e => (Exn e, fs)
    | Ok v =>
        let filtered_data := filter_data data in
        match as_records v ≫= update_loop rollno filtered_data with
        | Exn e => (Exn e, fs)
        | Ok (false, _) =>
            (Ok (JsonError ("Record with Rollno " ++ rollno ++ " not found"), 404), fs)
        | Ok (true, records) =>
            match write_csv g records fs with
            | (Exn e, fs') => (Exn e, fs')
            | (Ok _, fs') =>
                (Ok (JsonMessage ("Record with Rollno " ++ rollno ++ " updated successfully"), 200),
                 fs')
            end
        end
    end.

(** [[record for record in records if record["Rollno"] != rollno]] *)
Fixpoint delete_filter (rollno : string) (records : list record)
    : result (list record) :=
  match records with
  | [] => Ok []
  | record :: rest =>
      v ← getitem record "Rollno";
      rest' ← delete_filter rollno rest;
      Ok (if decide (v ≠ VStr rollno) then record :: rest' else rest')
  end.

(** [DELETE /remove/<rollno>] *)
Definition delete_record `{PyRuntime} (g : globals) (rollno : string)
    (fs : filesystem) : response * filesystem :=
  except_exception
    match read_csv g fs with
    | Exn e => (Exn e, fs)
    | Ok v =>
        match as_records v with
        | Exn e => (Exn e, fs)
        | Ok records =>
            match delete_filter rollno records with
            | Exn e => (Exn e, fs)
            | Ok new_records =>
                if decide (new_records = records)
                then (Ok (JsonError "Record not found", 404), fs)
                else
                  match write_csv g new_records fs with
                  | (Exn e, fs') => (Exn e, fs')
                  | (Ok _, fs') =>
                      (Ok (JsonMessage "Record deleted successfully", 200), fs')
                  end
            end
        end
    end.

(** ** The aggregation engine: partition, [worker], [average_scores] *)

(** [max(len(records) // num_threads, 1)] *)
Definition chunk_size (num_threads : nat) (records : list record) : nat :=
  (length records / num_threads) `max` 1.

(** [range(start, stop, step)] for [1 <= step]; it has at most [stop]
    elements, which bounds the recursion. *)
Fixpoint range_loop (fuel i stop step : nat) : list nat :=
  match fuel with
  | 0 => []
  | S fuel' => if decide (i < stop) then i :: range_loop fuel' (i + step) stop step else []
  end.

Definition py_range (start stop step : nat) : list nat :=
  range_loop stop start stop step.

(** [records[i:j]] *)
Definition slice {A} (l : list A) (i j : nat) : list A :=
  take (j - i) (drop i l).

(** The queue after the loop of [q.put(records[i:i + chunk_size])], oldest
    chunk first. *)
Definition enqueue_chunks (records : list record) (chunk_size : nat)
    : list (list record) :=
  (λ i, slice records i (i + chunk_size)) <$> py_range 0 (length records) chunk_size.

(** Where a worker thread stands in [worker]. *)
Inductive thread :=
  | AtTest                              (* before [while not q.empty()] *)
  | AtGet                               (* the test passed, before [q.get()] *)
  | Holding (chunk : list record)       (* [q.get()] returned [chunk] *)
  | Finished                            (* the loop was left *)
  | Crashed (e : exn).                  (* an exception ended the thread *)

(** The queue [q], the list [results] and the threads of one request. *)
Record pool := Pool {
  queue : list (list record);
  results : list item;
  threads : list thread
}.

(** One step of a thread that runs [worker], from where it stands.
    [q.get()] on an empty queue blocks: no step.
    [student_average] works on the thread's own chunk and the extension of
    [results] happens under [lock], so both make one step. *)
Definition worker `{PyRuntime} (t : thread) (q : list (list record))
    (res : list item) : option (thread * list (list record) * list item) :=
  match t with
  | AtTest =>
      match q with
      | [] => Some (Finished, q, res)
      | _ :: _ => Some (AtGet, q, res)
      end
  | AtGet =>
      match q with
      | [] => None
      | chunk :: q' => Some (Holding chunk, q', res)
      end
  | Holding chunk =>
      match student_average chunk with
      | Ok chunk_results => Some (AtTest, q, (res ++ extend_items chunk_results)%list)
      | Exn e => Some (Crashed e, q, res)
      end
  | Finished | Crashed _ => None
  end.

(** Thread [i] takes its next step, if it has one. *)
Definition pool_step `{PyRuntime} (i : nat) (p : pool) : option pool :=
  t ← threads p !! i;
  '(t', q', res') ← worker t (queue p) (results p);
  Some (Pool q' res' (<[i := t']> (threads p))).

(** The pool after the threads took steps in the order of [sched]; a
    thread that has no step when its turn comes is passed over. *)
Definition run `{PyRuntime} (sched : list nat) (p : pool) : pool :=
  foldl (λ p i, default p (pool_step i p)) p sched.

Definition terminated (t : thread) : bool :=
  match t with
  | Finished | Crashed _ => true
  | _ => false
  end.

(** Every [t.join()] returns. *)
Definition joined (p : pool) : bool := forallb terminated (threads p).

(** The pool as [average_scores] starts it: every chunk in the queue,
    nothing in [results], [num_threads] threads about to run [worker]. *)
Definition start_pool (records : list record) (num_threads : nat) : pool :=
  Pool (enqueue_chunks records (chunk_size num_threads records)) []
       (replicate num_threads AtTest).

(** The end of [average_scores], once the threads are joined. *)
Definition respond (results : list item) : response :=
  match results with
  | [] => (JsonError "No results computed", 500)
  | _ => (JsonAverages results, 200)
  end.

(** [average_scores] from [q = queue.Queue()] to the loop that starts the
    threads. The assignment [num_threads = 10] makes a local variable that
    hides the module global of the same name. *)
Definition start_workers (g : globals) (records : list record) : pool :=
  let num_threads := 10 in
  start_pool records num_threads.

(** [GET /average] under the schedule [sched]. [None]: the schedule ends
    with a worker that has not terminated, and the request is still waiting
    in [join]. A response object passes the test [if not records] and fails
    in [len(records)]. *)
Definition average_scores `{PyRuntime} (g : globals) (fs : filesystem)
    (sched : list nat) : option (result response) :=
  match read_csv g fs with
  | Exn e => Some (Exn e)
  | Ok v =>
      match v with
      | RecordList [] => Some (Ok (JsonError "No records found", 404))
      | _ =>
          match as_records v with
          | Exn e => Some (Exn e)
          | Ok records =>
              let p := run sched (start_workers g records) in
              if joined p then Some (Ok (respond (results p))) else None
          end
      end
  end.

(** The schedule that lets the threads run one after the other, each for
    [steps] steps. *)
Definition sequential_schedule (steps workers : nat) : list nat :=
  seq 0 workers ≫= replicate steps.

(** ** A runtime instance for concrete runs

    The statements about the program are proved for every [PyRuntime].
    Concrete requests are evaluated with the instance below. Its
    [float_of_str] reads the literals [[+-]digits[.digits]] and
    [[+-].digits] and gives the nearest double; [float] accepts more
    (exponents, blanks around the literal, [inf], [nan], underscores),
    none of which occurs in the files used here. Its [repr_str] is right
    for text without quotes, backslashes and control characters, and its
    [str_dict] for rows read under the header of [fieldnames]. *)

Definition digit (c : ascii) : option Z :=
  let n := Z.of_N (N_of_ascii c) in
  if decide (48 ≤ n ≤ 57)%Z then Some (n - 48)%Z else None.

(** The number written by a string of digits, after the digits [acc], and
    how many digits were read. *)
Fixpoint digits (s : string) (acc : Z) (count : nat) : option (Z * nat) :=
  match s with
  | EmptyString => Some (acc, count)
  | String c rest =>
      match digit c with
      | Some d => digits rest (10 * acc + d)%Z (S count)
      | None => None
      end
  end.

(** Splits a string at its first ["."]. *)
Fixpoint split_point (s : string) : string * option string :=
  match s with
  | EmptyString => (EmptyString, None)
  | String c rest =>
      if decide (c = "."%char) then (EmptyString, Some rest)
      else let '(before, after) := split_point rest in (String c before, after)
  end.

(** The double nearest to [a / b], ties to even, for [0 <= a] and [0 < b]. *)
Definition float_of_ratio (a b : Z) : float :=
  if decide (a = 0)%Z then 0%float
  else
    let e0 := (Z.log2 a - Z.log2 b)%Z in
    let fl := if decide (b * 2 ^ Z.max e0 0 ≤ a * 2 ^ Z.max (- e0) 0)%Z
              then e0 else (e0 - 1)%Z in
    let ex := Z.max (fl - 52) (-1074) in
    let m := div_half_even (a * 2 ^ Z.max (- ex) 0) (b * 2 ^ Z.max ex 0) in
    Z.ldexp (float_of_Z m) ex.

Definition decimal_float (s : string) : option float :=
  let '(negative, body) :=
    match s with
    | String "-"%char rest => (true, rest)
    | String "+"%char rest => (false, rest)
    | _ => (false, s)
    end in
  let '(int_part, frac_part) := split_point body in
  '(n, count_int) ← digits int_part 0%Z 0;
  '(n', count_frac) ← digits (default EmptyString frac_part) n 0;
  if decide (count_int + count_frac = 0) then None
  else
    let x := float_of_ratio n' (10 ^ Z.of_nat count_frac) in
    Some (if negative then PrimFloat.opp x else x).

Definition quoted (s : string) : string := "'" ++ s ++ "'".

Definition repr_value (v : value) : string :=
  match v with
  | VNone => "None"
  | VStr s => quoted s
  end.

Definition join (sep : string) (l : list string) : string :=
  match l with
  | [] => ""
  | s :: rest => foldl (λ acc t, acc ++ sep ++ t) s rest
  end.

Definition row_text (r : record) : string :=
  "{" ++ join ", " (omap (λ key, (λ v, quoted key ++ ": " ++ repr_value v) <$> r !! key)
                         fieldnames) ++ "}".

Definition csv_runtime : PyRuntime :=
  {| float_of_str := decimal_float; repr_str := quoted; str_dict := row_text |}.

(** A row with the five columns of the header. *)
Definition row (rollno name english maths science : string) : record :=
  {[ "Rollno" := VStr rollno; "name" := VStr name; "english" := VStr english;
     "maths" := VStr maths; "science" := VStr science ]}.

(** ** Notions used in the statements *)





(** The derived records among the elements of [results]. *)
Definition derived_of (results : list item) : list derived :=
  omap (λ i, match i with IDict d => Some d | IStr _ => None end) results.

(** The identifiers of a record set: the [Rollno] cells. *)
Definition identifiers (records : list record) : list value :=
  omap (λ r, r !! "Rollno") records.

(** [ceil(n / d)] for [0 < d]. *)
Definition ceil_div (n d : nat) : nat := (n + d - 1) / d.

(** The row that reads back after [write_csv] wrote [r]. *)
Definition stored (r : record) : record :=
  row_of_cells ((λ key, cell (r !! key)) <$> fieldnames).

(** A row of the file format: the five columns of the header, each with a
    text. Such a row reads back as it was written. *)
Definition in_schema (r : record) : Prop := stored r = r.

Global Instance in_schema_dec r : Decision (in_schema r).
Proof. unfold in_schema. apply _. Defined.

(** No record of the set has the identifier [rollno]. *)
Definition absent (rollno : string) (records : list record) : Prop :=
  Forall (λ r, ∃ v, r !! "Rollno" = Some v ∧ v ≠ VStr rollno) records.

(** What a chunk adds to [results] when a worker has processed it: nothing
    when [student_average] raised. *)
Definition items `{PyRuntime} (chunk : list record) : list item :=
  match student_average chunk with
  | Ok chunk_results => extend_items chunk_results
  | Exn _ => []
  end.

(** The derived records of the records that parse. *)
Definition parsed `{PyRuntime} (records : list record) : list derived :=
  omap (λ r, match average_record r with Ok d => Some d | Exn _ => None end) records.

(** The chunks that the workers have taken from the queue and not yet
    processed. *)
Definition held (ts : list thread) : list (list record) :=
  omap (λ t, match t with Holding chunk => Some chunk | _ => None end) ts.

(** What holds of the pool all along a run over the chunks [chunks]: every
    chunk is in the queue, in the hands of a worker, or taken and
    processed, and [results] holds what the processed chunks added, in
    some order; a worker that crashed did so on one of the chunks; once a
    worker has left its loop the queue is empty. *)
Definition pool_inv `{PyRuntime} (chunks : list (list record)) (p : pool) : Prop :=
  (∃ taken, chunks ≡ₚ taken ++ held (threads p) ++ queue p
            ∧ results p ≡ₚ taken ≫= items)
  ∧ (∀ e, Crashed e ∈ threads p → ∃ c, c ∈ chunks ∧ student_average c = Exn e)
  ∧ (Finished ∈ threads p → queue p = []).

(** The record parses: the [try] block goes through. *)
Definition parses `{PyRuntime} (r : record) : bool :=
  match average_record r with
  | Ok _ => true
  | Exn _ => false
  end.

(** Every record of the chunk parses. *)
Definition clean `{PyRuntime} (chunk : list record) : bool := forallb parses chunk.

(** The chunks [average_scores] cuts the record set into. *)
Definition chunks_of (records : list record) : list (list record) :=
  enqueue_chunks records (chunk_size 10 records).

(** ** The other routes: [read_record], [create_record], [update_page], [remove_page] *)

(** What a view returns: a rendered template, a JSON response with its
    status, or a row ([return record]), which Flask sends as JSON with
    status 200. *)
Inductive view :=
  | Template (name : string)
  | Json (r : response)
  | JsonRow (r : record).

(** [GET /read] with the query argument [rollno] ([None] when it is not
    given). The loop returns the first record with that identifier; the
    "not found" answer has no status of its own, hence 200. Nothing is
    caught here: an exception leaves the view. *)
Fixpoint read_loop (rollno : string) (records : list record) : result view :=
  match records with
  | [] => Ok (Json (JsonError ("Record with Rollno " ++ rollno ++ " not found"), 200))
  | record :: rest =>
      v ← getitem record "Rollno";
      if decide (v = VStr rollno) then Ok (JsonRow record) else read_loop rollno rest
  end.

Definition read_record `{PyRuntime} (g : globals) (rollno : option string)
    (fs : filesystem) : result view :=
  match rollno with
  | None | Some "" => Ok (Template "read.html")
  | Some rollno =>
      v ← read_csv g fs;
      records ← as_records v;
      read_loop rollno records
  end.

(** [any(record["Rollno"] == data["Rollno"] for record in records)]: both
    subscripts are evaluated for each record, until one comparison holds. *)
Fixpoint any_rollno (data : record) (records : list record) : result bool :=
  match records with
  | [] => Ok false
  | record :: rest =>
      v ← getitem record "Rollno";
      w ← getitem data "Rollno";
      if decide (v = w) then Ok true else any_rollno data rest
  end.

(** [str(v)] inside an f-string, for a cell. *)
Definition str_value (v : value) : string :=
  match v with
  | VNone => "None"
  | VStr s => s
  end.

(** [/insert] with the request method and the form fields ([to_dict()]
    gives a dict of strings). The view has no [try]: an exception leaves
    it, with the file system as it is at that moment. The last subscript
    [data['Rollno']] is the one in the log message after the write. *)
Definition create_record `{PyRuntime} (g : globals) (method : string)
    (form : gmap string string) (fs : filesystem) : result view * filesystem :=
  if decide (method = "POST") then
    let data : record := VStr <$> form in
    match read_csv g fs ≫= as_records with
    | Exn e => (Exn e, fs)
    | Ok records =>
        match any_rollno data records with
        | Exn e => (Exn e, fs)
        | Ok true =>
            match getitem data "Rollno" with
            | Exn e => (Exn e, fs)
            | Ok v =>
                (Ok (Json (JsonError ("Record with " ++ str_value v ++ " already exists"), 400)),
                 fs)
            end
        | Ok false =>
            match write_csv g (records ++ [data])%list fs with
            | (Exn e, fs') => (Exn e, fs')
            | (Ok _, fs') =>
                match getitem data "Rollno" with
                | Exn e => (Exn e, fs')
                | Ok _ => (Ok (Json (JsonMessage "Record added successfully", 201)), fs')
                end
            end
        end
    end
  else (Ok (Template "insert.html"), fs).

(** [str(rollno)] for the value of [request.form.get('rollno')]. *)
Definition str_option (rollno : option string) : string := default "None" rollno.

(** [/remove] with the request method and the form. The request that the
    view sends to the service itself, [url_for] and [requests.delete], is
    a parameter: it gives the status code of the answer, or [None] when
    either of the two raises. A status that is neither 200 nor 404 leaves
    the [if] and the [try], and the form is rendered. *)
Definition remove_page (method : string) (form : gmap string string)
    (delete_request : option string → option nat) : view :=
  if decide (method = "POST") then
    let rollno := form !! "rollno" in
    match delete_request rollno with
    | None => Json (JsonError "An error occurred", 500)
    | Some 200 => Json (JsonMessage "Record deleted successfully", 200)
    | Some 404 => Json (JsonError ("Record  with Rollno " ++ str_option rollno ++ " not found"), 200)
    | Some _ => Template "remove.html"
    end
  else Template "remove.html".

(** [/update] with the request method and the form; [put_request] stands
    for [url_for] and [requests.put] with the form as JSON body. *)
Definition update_page (method : string) (form : gmap string string)
    (put_request : option string → gmap string string → option nat) : view :=
  if decide (method = "POST") then
    let rollno := form !! "rollno" in
    let data := form in
    match put_request rollno data with
    | None => Json (JsonError "An error occurred", 500)
    | Some 200 =>
        Json (JsonMessage ("Record with Rollno " ++ str_option rollno ++ " updated successfully"),
              200)
    | Some 404 => Json (JsonError ("Record with Rollno " ++ str_option rollno ++ " not found"), 200)
    | Some status_code => Json (JsonError "An unexpected error occurred", status_code)
    end
  else Template "update.html".

(** ** More notions used in the statements *)

(** The step at which the pool stops for good: the queue is empty and a
    worker is about to call [q.get()]. *)
Definition waits_for_ever (p : pool) : Prop :=
  queue p = [] ∧ AtGet ∈ threads p.

(** * Properties *)

Open Scope list_scope.
Open Scope nat_scope.

(** ** [student_average] *)

Section student_average.
Context `{PyRuntime}.

(** The loop only ever appends to [averages]: records that parse move
    from the input to the accumulator. *)
Lemma student_average_loop_parsed records ds rest averages :
  Forall2 (λ r d, average_record r = Ok d) records ds →
  student_average_loop (records ++ rest) averages
  = student_average_loop rest (averages ++ ds).
Proof.
  intros Hall. revert averages.
  induction Hall as [|r d records ds Hr _ IH]; intros averages; simpl.
  - by rewrite app_nil_r.
  - rewrite Hr, IH. by rewrite <- app_assoc.
Qed.

Lemma student_average_parsed records ds :
  Forall2 (λ r d, average_record r = Ok d) records ds →
  student_average records = Ok (Averages ds).
Proof.
  intros Hall. unfold student_average.
  rewrite <- (app_nil_r records).
  by rewrite (student_average_loop_parsed _ _ _ _ Hall).
Qed.

(** The first record that does not parse decides the result. *)
Lemma student_average_first_failure before ds record after e :
  Forall2 (λ r d, average_record r = Ok d) before ds →
  average_record record = Exn e →
  student_average (before ++ record :: after)
  = match e with
    | KeyError _ | ValueError _ => Ok (Message (error_message record e))
    | _ => Exn e
    end.
Proof.
  intros Hall He. unfold student_average.
  rewrite (student_average_loop_parsed _ _ _ _ Hall). simpl.
  rewrite He. by destruct e.
Qed.

(** Every list of records is of one of the two shapes above. *)
Lemma records_parsed_or_failure records :
  (∃ ds, Forall2 (λ r d, average_record r = Ok d) records ds)
  ∨ (∃ before ds record after e,
       records = before ++ record :: after
       ∧ Forall2 (λ r d, average_record r = Ok d) before ds
       ∧ average_record record = Exn e).
Proof.
  induction records as [|r records IH].
  - left. exists []. constructor.
  - destruct (average_record r) as [d|e] eqn:Hr.
    + destruct IH as [[ds Hds]|(before & ds & record & after & e & -> & Hds & He)].
      * left. exists (d :: ds). by constructor.
      * right. exists (r :: before), (d :: ds), record, after, e.
        split_and!; [done | by constructor | done].
    + right. exists [], [], r, records, e. split_and!; [done | constructor | done].
Qed.

(** What a record contributes when it parses: identifier and name are
    copied from it. *)
Lemma average_record_Ok record d :
  average_record record = Ok d →
  record !! "Rollno" = Some (d_Rollno d) ∧ record !! "name" = Some (d_name d).
Proof.
  unfold average_record, getitem, mbind, result_bind.
  repeat (case_match; try done); intros [= <-]; simplify_eq/=; done.
Qed.
End student_average.

Section student_average_inversion.
Context `{PyRuntime}.

Lemma student_average_Averages_inv records averages :
  student_average records = Ok (Averages averages) →
  Forall2 (λ r d, average_record r = Ok d) records averages.
Proof.
  intros Hres.
  destruct (records_parsed_or_failure records)
    as [[ds Hds]|(before & ds & record & after & e & -> & Hds & He)].
  - rewrite (student_average_parsed _ _ Hds) in Hres. by simplify_eq.
  - rewrite (student_average_first_failure _ _ _ _ _ Hds He) in Hres.
    by destruct e.
Qed.
End student_average_inversion.

(** ** The computed average (C7) *)








(** ** The partition into chunks (C5) *)

Lemma range_loop_lookup (fuel i stop step k : nat) :
  0 < step → stop - i ≤ fuel →
  range_loop fuel i stop step !! k
  = if decide (i + k * step < stop) then Some (i + k * step) else None.
Proof.
  intros Hstep. revert i k.
  induction fuel as [|fuel IH]; intros i k Hfuel; simpl.
  - case_decide; [nia | done].
  - destruct (decide (i < stop)) as [Hi|Hi].
    + destruct k as [|k]; simpl.
      * rewrite Nat.add_0_r. by rewrite decide_True.
      * rewrite IH by lia.
        replace (i + step + k * step) with (i + (step + k * step)) by lia. done.
    + rewrite lookup_nil. case_decide; [nia | done].
Qed.

Lemma range_loop_concat {A} (l : list A) (fuel i step : nat) :
  0 < step → length l - i ≤ fuel →
  concat ((λ i, slice l i (i + step)) <$> range_loop fuel i (length l) step) = drop i l.
Proof.
  intros Hstep. revert i.
  induction fuel as [|fuel IH]; intros i Hfuel; simpl.
  - rewrite drop_ge by lia. done.
  - destruct (decide (i < length l)) as [Hi|Hi]; simpl.
    + rewrite IH by lia. unfold slice.
      replace (i + step - i) with step by lia.
      rewrite <- (take_drop step (drop i l)) at 2.
      by rewrite drop_drop.
    + rewrite drop_ge by lia. done.
Qed.

Lemma ceil_div_lt (n d k : nat) : 0 < d → k < ceil_div n d ↔ k * d < n.
Proof.
  intros Hd. unfold ceil_div.
  pose proof (Nat.div_mod (n + d - 1) d ltac:(lia)) as Hdiv.
  pose proof (Nat.mod_upper_bound (n + d - 1) d ltac:(lia)) as Hmod.
  split; intros Hk; nia.
Qed.

Lemma enqueue_chunks_lookup (records : list record) (cs k : nat) :
  0 < cs →
  enqueue_chunks records cs !! k
  = if decide (k * cs < length records) then Some (take cs (drop (k * cs) records))
    else None.
Proof.
  intros Hcs. unfold enqueue_chunks, py_range.
  rewrite list_lookup_fmap, range_loop_lookup by lia. simpl.
  case_decide; [|done]. simpl. unfold slice. f_equal. f_equal. lia.
Qed.

Lemma enqueue_chunks_length (records : list record) (cs : nat) :
  0 < cs → length (enqueue_chunks records cs) = ceil_div (length records) cs.
Proof.
  intros Hcs.
  destruct (Nat.lt_trichotomy (length (enqueue_chunks records cs))
              (ceil_div (length records) cs)) as [Hlt|[Heq|Hgt]]; [|done|].
  - apply ceil_div_lt in Hlt; [|done].
    pose proof (enqueue_chunks_lookup records cs
                  (length (enqueue_chunks records cs)) Hcs) as Hlook.
    rewrite decide_True in Hlook by done.
    apply lookup_lt_Some in Hlook. lia.
  - destruct (enqueue_chunks records cs !! ceil_div (length records) cs)
      as [c|] eqn:Hc; [|apply lookup_ge_None in Hc; lia].
    rewrite enqueue_chunks_lookup in Hc by done.
    case_decide as Hk; [|done].
    apply (ceil_div_lt _ _ _ Hcs) in Hk. lia.
Qed.

Lemma enqueue_chunks_concat (records : list record) (cs : nat) :
  0 < cs → concat (enqueue_chunks records cs) = records.
Proof.
  intros Hcs. unfold enqueue_chunks, py_range.
  by rewrite range_loop_concat by lia.
Qed.

Lemma chunk_size_pos (W : nat) (records : list record) : 0 < chunk_size W records.
Proof. unfold chunk_size. lia. Qed.

(** C5. For [N] records and [W] workers ([0 < W]; in Python [N // 0]
    raises): the chunk size is [max(N // W, 1)]; [ceil(N / chunk_size)]
    chunks are put in the queue; chunk number [k] is the contiguous slice
    of at most [chunk_size] records that starts at position
    [k * chunk_size]; every position of the input lies in exactly one
    chunk; and the chunks, concatenated in the order they were put in the
    queue, give the input back. *)
Theorem partition_into_chunks (W : nat) (records : list record) :
  0 < W →
  let N := length records in
  let cs := chunk_size W records in
  let chunks := enqueue_chunks records cs in
  cs = (N / W) `max` 1
  ∧ queue (start_pool records W) = chunks
  ∧ length chunks = ceil_div N cs
  ∧ (∀ k c, chunks !! k = Some c →
       c = take cs (drop (k * cs) records) ∧ 0 < length c ≤ cs)
  ∧ (∀ i, i < N →
       exists ! k, ∃ c, chunks !! k = Some c ∧ k * cs ≤ i < k * cs + length c)
  ∧ concat chunks = records.
Proof.
  intros HW N cs chunks.
  pose proof (chunk_size_pos W records) as Hcs. fold cs in Hcs.
  assert (Hlook : ∀ k c, chunks !! k = Some c →
            c = take cs (drop (k * cs) records) ∧ 0 < length c ≤ cs
            ∧ length c = cs `min` (N - k * cs) ∧ k * cs < N).
  { intros k c Hc. unfold chunks in Hc.
    rewrite enqueue_chunks_lookup in Hc by done.
    case_decide as Hk; [|done]. injection Hc as <-.
    rewrite length_take, length_drop. fold N. split_and!; [done|lia..]. }
  split_and!.
  - done.
  - done.
  - by apply enqueue_chunks_length.
  - intros k c Hc. destruct (Hlook k c Hc) as (-> & Hlen & _). done.
  - intros i Hi. exists (i / cs).
    pose proof (Nat.div_mod i cs ltac:(lia)) as Hdiv.
    pose proof (Nat.mod_upper_bound i cs ltac:(lia)) as Hmod.
    split.
    + exists (take cs (drop (i / cs * cs) records)).
      unfold chunks. rewrite enqueue_chunks_lookup by done.
      rewrite decide_True by (fold N; nia).
      split; [done|]. rewrite length_take, length_drop. fold N. nia.
    + intros k (c & Hc & Hk).
      destruct (Hlook k c Hc) as (_ & _ & Hlen & _).
      symmetry. apply (Nat.div_unique i cs k (i - k * cs)); nia.
  - by apply enqueue_chunks_concat.
Qed.

(** Twenty-five records and ten workers: chunks of two records, thirteen
    chunks, the last one with a single record. *)
Lemma partition_into_chunks_example :
  let records := replicate 25 (row "1" "Asha" "90" "80" "70") in
  chunk_size 10 records = 2
  ∧ length (enqueue_chunks records 2) = 13
  ∧ concat (enqueue_chunks records 2) = records.
Proof.
  intros records.
  pose proof (partition_into_chunks 10 records ltac:(lia))
    as (Hcs & _ & Hlen & _ & _ & Hconcat).
  split_and!.
  - exact Hcs.
  - exact Hlen.
  - exact Hconcat.
Defined.

(** ** The worker count (C6) *)

(** C6. The value configured as [thread_size] reaches the module global
    [num_threads] and no further: [average_scores] starts ten workers and
    cuts chunks for ten workers whatever the configuration says. With
    [thread_size = 5] and twenty records it queues ten chunks of two
    records, where five workers would get five chunks of four. *)
Theorem thread_size_is_ignored :
  let cfg := Config None None (Some 5) None in
  let g := load_globals cfg in
  let records := replicate 20 (row "1" "Asha" "90" "80" "70") in
  num_threads g = 5
  ∧ length (threads (start_workers g records)) = 10
  ∧ length (queue (start_workers g records)) = 10
  ∧ queue (start_workers g records) = enqueue_chunks records (chunk_size 10 records)
  ∧ length (enqueue_chunks records (chunk_size (num_threads g) records)) = 5.
Proof.
  intros cfg g records. split_and!.
  - reflexivity.
  - reflexivity.
  - unfold start_workers, start_pool. simpl queue.
    rewrite enqueue_chunks_length by apply chunk_size_pos. reflexivity.
  - reflexivity.
  - rewrite enqueue_chunks_length by apply chunk_size_pos. reflexivity.
Qed.

(** ** Reading a file that is not there (C3) *)

(** C3. With no file at [csv_file], [read_csv] does not fail: it returns
    the response object built in its [except] branch as its value. The
    callers take that value for the record set: [average_scores] gets past
    its test for an empty set and breaks on [len], [update_record] and
    [delete_record] break on the iteration and answer with their generic
    status 500. A file that exists and cannot be opened is different: that
    exception does leave [read_csv]. *)
Theorem read_csv_returns_response_object :
  let g := load_globals (Config None None None None) in
  @read_csv csv_runtime g ∅
  = Ok (ResponseObject
          (JsonError "FileNotFoundError [Errno 2] No such file or directory: 'data.csv'"))
  ∧ @average_scores csv_runtime g ∅ [] = Some (Exn TypeError)
  ∧ @update_record csv_runtime g "1" ∅ ∅ = ((JsonError "An error occurred", 500), ∅)
  ∧ @delete_record csv_runtime g "1" ∅ = ((JsonError "An error occurred", 500), ∅)
  ∧ @read_csv csv_runtime g {[ "data.csv" := Locked ]} = Exn PermissionError.
Proof. vm_compute. by split_and!. Qed.

(** ** An empty record set (C4) *)

(** C4 fails on the empty file: [average_scores] answers 404, whatever
    the schedule. *)
Lemma average_scores_empty_is_an_error :
  let g := load_globals (Config None None None None) in
  let fs : filesystem := {[ "data.csv" := Rows [] ]} in
  @average_scores csv_runtime g fs [] = Some (Ok (JsonError "No records found", 404))
  ∧ @average_scores csv_runtime g fs (sequential_schedule 1 10)
    = Some (Ok (JsonError "No records found", 404)).
Proof. vm_compute. by split. Qed.

(** C4, as the code has it. [student_average] returns an empty list for an
    empty list of records, without error; [average_scores] does not get
    that far: when the file holds no record it starts no worker and
    answers with the error "No records found" and status 404. *)
Theorem average_scores_empty `{PyRuntime} (g : globals) (fs : filesystem)
    (sched : list nat) :
  fs !! csv_file g = Some (Rows []) →
  student_average [] = Ok (Averages [])
  ∧ average_scores g fs sched = Some (Ok (JsonError "No records found", 404)).
Proof.
  intros Hfile. split; [done|].
  unfold average_scores, read_csv, py_open. by rewrite Hfile.
Qed.

Lemma average_scores_empty_example :
  @average_scores csv_runtime (load_globals (Config None None None None))
     {[ "data.csv" := Rows [] ]} [0; 1; 2]
  = Some (Ok (JsonError "No records found", 404)).
Proof.
  apply (@average_scores_empty csv_runtime (load_globals (Config None None None None))
           {[ "data.csv" := Rows [] ]} [0; 1; 2]).
  vm_compute. reflexivity.
Defined.

(** ** Deleting an identifier that is not in the store (C9) *)

Lemma delete_filter_absent (rollno : string) (records : list record) :
  absent rollno records → delete_filter rollno records = Ok records.
Proof.
  induction 1 as [|r records (v & Hv & Hne) _ IH]; simpl; [done|].
  unfold getitem. rewrite Hv. simpl. rewrite IH. simpl.
  by rewrite decide_True.
Qed.

(** C9. When every record of the file has an identifier and none has
    [rollno], [delete_record] answers "Record not found" with status 404
    and writes nothing: the file system is the one it started from. A
    second request on the result is answered the same way. *)
Theorem delete_absent_not_found `{PyRuntime} (g : globals) (rollno : string)
    (fs : filesystem) (records : list record) :
  fs !! csv_file g = Some (Rows records) →
  absent rollno records →
  delete_record g rollno fs = ((JsonError "Record not found", 404), fs)
  ∧ delete_record g rollno (delete_record g rollno fs).2
    = ((JsonError "Record not found", 404), fs).
Proof.
  intros Hfile Habsent.
  assert (Hfirst : delete_record g rollno fs = ((JsonError "Record not found", 404), fs)).
  { unfold delete_record, read_csv, py_open. rewrite Hfile. simpl.
    rewrite (delete_filter_absent _ _ Habsent).
    by rewrite decide_True. }
  split; [done|]. by rewrite Hfirst.
Qed.

Lemma delete_absent_not_found_example :
  let g := load_globals (Config None None None None) in
  let fs : filesystem :=
    {[ "data.csv" := Rows [row "1" "Asha" "90" "80" "70"; row "2" "Ravi" "100" "100" "99"] ]} in
  @delete_record csv_runtime g "3" fs = ((JsonError "Record not found", 404), fs)
  ∧ @delete_record csv_runtime g "3" (@delete_record csv_runtime g "3" fs).2
    = ((JsonError "Record not found", 404), fs).
Proof.
  intros g fs.
  apply (@delete_absent_not_found csv_runtime g "3" fs
           [row "1" "Asha" "90" "80" "70"; row "2" "Ravi" "100" "100" "99"]).
  - vm_compute. reflexivity.
  - repeat constructor.
    + exists (VStr "1"). split; [vm_compute; reflexivity | discriminate].
    + exists (VStr "2"). split; [vm_compute; reflexivity | discriminate].
Defined.

(** ** Updating a record (C8, C10) *)

Lemma update_loop_absent (rollno : string) (fd : gmap string value)
    (records : list record) :
  absent rollno records → update_loop rollno fd records = Ok (false, records).
Proof.
  induction 1 as [|r records (v & Hv & Hne) _ IH]; simpl; [done|].
  unfold getitem. rewrite Hv. simpl.
  rewrite decide_False by done. by rewrite IH.
Qed.

Lemma update_loop_found (rollno : string) (fd : gmap string value)
    (before : list record) (r : record) (after : list record) :
  absent rollno before →
  r !! "Rollno" = Some (VStr rollno) →
  update_loop rollno fd (before ++ r :: after)
  = Ok (true, before ++ (fd ∪ r) :: after).
Proof.
  intros Hbefore Hr.
  induction Hbefore as [|r' before (v & Hv & Hne) _ IH]; simpl.
  - unfold getitem. rewrite Hr. simpl. by rewrite decide_True.
  - unfold getitem at 1. rewrite Hv. simpl.
    rewrite decide_False by done. by rewrite IH.
Qed.

(** [filtered_data] holds the entries of [data] under the allowed keys. *)
Lemma filter_data_lookup (data : gmap string value) (key : string) :
  filter_data data !! key = if decide (key ∈ valid_fields) then data !! key else None.
Proof.
  unfold filter_data. rewrite map_lookup_filter.
  destruct (data !! key) as [v|]; simpl; [|by case_decide].
  case_decide.
  - by rewrite option_guard_True.
  - by rewrite option_guard_False.
Qed.

Lemma stored_lookup (r : record) (key : string) :
  stored r !! key
  = if decide (key ∈ fieldnames) then Some (VStr (cell (r !! key))) else None.
Proof.
  unfold stored, row_of_cells, fieldnames. simpl.
  case_decide as Hkey.
  - repeat (apply elem_of_cons in Hkey as [->|Hkey]; [by simplify_map_eq|]).
    by apply elem_of_nil in Hkey.
  - repeat (rewrite lookup_insert_ne
              by (intros <-; apply Hkey; repeat constructor)).
    done.
Qed.

Lemma in_schema_lookup (r : record) (key : string) :
  in_schema r →
  r !! key = if decide (key ∈ fieldnames) then Some (VStr (cell (r !! key))) else None.
Proof. intros Hr. unfold in_schema in Hr. rewrite <- Hr at 1. apply stored_lookup. Qed.

(** A record whose keys are all column names is written without error. *)
Lemma dict_to_list_columns (r : record) :
  (∀ key, key ∉ fieldnames → r !! key = None) →
  dict_to_list r = Ok ((λ key, cell (r !! key)) <$> fieldnames).
Proof.
  intros Hkeys. unfold dict_to_list. rewrite decide_True; [done|].
  intros key Hkey. apply elem_of_list_to_set.
  destruct (decide (key ∈ fieldnames)) as [|Hout]; [done|].
  apply elem_of_dom in Hkey as [v Hv]. rewrite Hkeys in Hv by done. done.
Qed.

Lemma writerows_columns (rows : list record) :
  Forall (λ r, ∀ key, key ∉ fieldnames → r !! key = None) rows →
  writerows rows = (stored <$> rows, None).
Proof.
  induction 1 as [|r rows Hr _ IH]; simpl; [done|].
  rewrite (dict_to_list_columns r Hr), IH. done.
Qed.

Lemma in_schema_columns (r : record) (key : string) :
  in_schema r → key ∉ fieldnames → r !! key = None.
Proof. intros Hr Hkey. rewrite (in_schema_lookup r key Hr). by rewrite decide_False. Qed.

(** Writing back rows of the file format leaves them as they are. *)
Lemma stored_in_schema (rows : list record) :
  Forall in_schema rows → stored <$> rows = rows.
Proof.
  induction 1 as [|r rows Hr _ IH]; [done|].
  rewrite fmap_cons, IH. unfold in_schema in Hr. by rewrite Hr.
Qed.

Lemma update_record_found `{PyRuntime} (g : globals) (rollno : string)
    (data : gmap string value) (fs : filesystem)
    (before : list record) (r : record) (after : list record) :
  fs !! csv_file g = Some (Rows (before ++ r :: after)) →
  Forall in_schema (before ++ r :: after) →
  absent rollno before →
  r !! "Rollno" = Some (VStr rollno) →
  update_record g rollno data fs
  = ((JsonMessage ("Record with Rollno " +:+ rollno +:+ " updated successfully"), 200),
     <[csv_file g := Rows (before ++ stored (filter_data data ∪ r) :: after)]> fs).
Proof.
  intros Hfile Hschema Hbefore Hr.
  apply Forall_app in Hschema as [Hsb Hsa].
  apply Forall_cons in Hsa as [Hsr Hsa].
  unfold update_record, read_csv, py_open. rewrite Hfile. simpl.
  rewrite (update_loop_found _ _ _ _ _ Hbefore Hr).
  unfold write_csv. rewrite Hfile.
  rewrite writerows_columns.
  - rewrite fmap_app, fmap_cons.
    by rewrite (stored_in_schema _ Hsb), (stored_in_schema _ Hsa).
  - apply Forall_app. split; [|apply Forall_cons; split].
    + eapply Forall_impl; [exact Hsb|]. intros r' Hr' key. by apply in_schema_columns.
    + intros key Hkey. apply lookup_union_None. split.
      * rewrite filter_data_lookup. by rewrite decide_False.
      * by apply in_schema_columns.
    + eapply Forall_impl; [exact Hsa|]. intros r' Hr' key. by apply in_schema_columns.
Qed.

(** C8 fails on a file with a row that is shorter than the header. The
    reader gives the missing cell of record 1 the value [None]; an update
    of record 2 with an empty set of fields answers 200 and writes the
    whole set back, and record 1 is no longer what it was: its missing
    cell is now the empty text. *)
Lemma empty_update_changes_a_short_row :
  let g := load_globals (Config None None None None) in
  let short : record :=
    {[ "Rollno" := VStr "1"; "name" := VStr "Asha"; "english" := VStr "90";
       "maths" := VStr "80"; "science" := VNone ]} in
  let fs : filesystem :=
    {[ "data.csv" := Rows [short; row "2" "Ravi" "100" "100" "99"] ]} in
  @update_record csv_runtime g "2" ∅ fs
  = ((JsonMessage "Record with Rollno 2 updated successfully", 200),
     {[ "data.csv" := Rows [row "1" "Asha" "90" "80" ""; row "2" "Ravi" "100" "100" "99"] ]})
  ∧ short !! "science" = Some VNone
  ∧ row "1" "Asha" "90" "80" "" !! "science" = Some (VStr "")
  ∧ short ≠ row "1" "Asha" "90" "80" "".
Proof.
  split_and!.
  - vm_compute. reflexivity.
  - vm_compute. reflexivity.
  - vm_compute. reflexivity.
  - intros Heq. apply (f_equal (λ r : record, r !! "science")) in Heq.
    vm_compute in Heq. discriminate.
Qed.

(** C8, as the code has it. On every file that can be read:
    - only the fields of the allowed set count: the answer and the file
      are those of the payload cut down to the allowed keys;
    - when [rollno] is the identifier of no record, [update_record]
      answers "not found" with status 404 and writes nothing.
    On a file whose rows all have exactly the five cells of the header:
    - the first record with that identifier is the only one that changes,
      and in it only the allowed fields that the payload names: every
      other cell keeps its text, and the whole set is written back;
    - with an empty payload the file is written back as it was. *)
Theorem update_record_allowed_fields `{PyRuntime} (g : globals) (rollno : string)
    (data : gmap string value) (fs : filesystem) (records : list record) :
  fs !! csv_file g = Some (Rows records) →
  update_record g rollno data fs = update_record g rollno (filter_data data) fs
  ∧ (absent rollno records →
       update_record g rollno data fs
       = ((JsonError ("Record with Rollno " +:+ rollno +:+ " not found"), 404), fs))
  ∧ (Forall in_schema records →
     ∀ before r after,
       records = before ++ r :: after →
       absent rollno before →
       r !! "Rollno" = Some (VStr rollno) →
       ∃ r',
         update_record g rollno data fs
         = ((JsonMessage ("Record with Rollno " +:+ rollno +:+ " updated successfully"), 200),
            <[csv_file g := Rows (before ++ r' :: after)]> fs)
         ∧ (∀ key, key ∉ valid_fields → r' !! key = r !! key)
         ∧ (∀ key, data !! key = None → r' !! key = r !! key)
         ∧ (∀ key v, key ∈ valid_fields → data !! key = Some v →
              r' !! key = Some (VStr (cell (Some v))))
         ∧ (data = ∅ → r' = r ∧ <[csv_file g := Rows (before ++ r' :: after)]> fs = fs)).
Proof.
  intros Hfile. split_and!.
  - unfold update_record. f_equal.
    replace (filter_data (filter_data data)) with (filter_data data); [done|].
    apply map_eq. intros key. rewrite !filter_data_lookup. by case_decide.
  - intros Habsent.
    unfold update_record, read_csv, py_open. rewrite Hfile. simpl.
    by rewrite (update_loop_absent _ _ _ Habsent).
  - intros Hschema before r after -> Hbefore Hr.
    exists (stored (filter_data data ∪ r)).
    assert (Hsr : in_schema r).
    { apply Forall_app in Hschema as [_ Hsa]. by apply Forall_cons in Hsa as [Hsr _]. }
    split_and!.
    + by apply update_record_found.
    + intros key Hkey. rewrite stored_lookup.
      rewrite decide_False by done. symmetry. by apply in_schema_columns.
    + intros key Hkey. rewrite stored_lookup.
      rewrite lookup_union_r
        by (rewrite filter_data_lookup, Hkey; by case_decide).
      symmetry. by apply in_schema_lookup.
    + intros key v Hkey Hv. rewrite stored_lookup.
      rewrite decide_True by done.
      erewrite lookup_union_Some_l; [done|].
      rewrite filter_data_lookup, decide_True by done. done.
    + intros ->.
      assert (Hsame : stored (filter_data ∅ ∪ r) = r).
      { unfold filter_data. rewrite map_filter_empty, (left_id_L ∅ (∪)). exact Hsr. }
      rewrite Hsame. split; [done|]. by apply insert_id.
Qed.

Lemma update_record_allowed_fields_example :
  let g := load_globals (Config None None None None) in
  let fs : filesystem :=
    {[ "data.csv" := Rows [row "1" "Asha" "90" "80" "70"; row "2" "Ravi" "100" "100" "99"] ]} in
  @update_record csv_runtime g "3" {[ "name" := VStr "Mira" ]} fs
  = ((JsonError "Record with Rollno 3 not found", 404), fs)
  ∧ @update_record csv_runtime g "2" ∅ fs
    = ((JsonMessage "Record with Rollno 2 updated successfully", 200), fs)
  ∧ @update_record csv_runtime g "2" {[ "name" := VStr "Mira"; "grade" := VStr "A" ]} fs
    = ((JsonMessage "Record with Rollno 2 updated successfully", 200),
       {[ "data.csv" := Rows [row "1" "Asha" "90" "80" "70"; row "2" "Mira" "100" "100" "99"] ]}).
Proof.
  intros g fs.
  assert (Hfile : fs !! csv_file g
            = Some (Rows [row "1" "Asha" "90" "80" "70"; row "2" "Ravi" "100" "100" "99"]))
    by (vm_compute; reflexivity).
  assert (Hschema : Forall in_schema
            [row "1" "Asha" "90" "80" "70"; row "2" "Ravi" "100" "100" "99"])
    by (repeat constructor; vm_compute; reflexivity).
  assert (Habsent1 : absent "2" [row "1" "Asha" "90" "80" "70"]).
  { repeat constructor. exists (VStr "1"). split; [vm_compute; reflexivity | discriminate]. }
  split_and!.
  - apply (@update_record_allowed_fields csv_runtime g "3" {[ "name" := VStr "Mira" ]}
             fs _ Hfile).
    repeat constructor.
    + exists (VStr "1"). split; [vm_compute; reflexivity | discriminate].
    + exists (VStr "2"). split; [vm_compute; reflexivity | discriminate].
  - destruct (proj2 (proj2 (@update_record_allowed_fields csv_runtime g "2" ∅ fs _ Hfile))
                Hschema
                [row "1" "Asha" "90" "80" "70"] (row "2" "Ravi" "100" "100" "99") []
                eq_refl Habsent1 eq_refl) as (r' & Hupd & _ & _ & _ & Hempty).
    destruct (Hempty eq_refl) as [_ Hfs]. rewrite Hupd, Hfs. reflexivity.
  - vm_compute. reflexivity.
Defined.

(** C10. [Rollno] is one of the allowed fields, so an update can give a
    record the identifier of another one. The file holds the identifiers
    1 and 2; the request to update record 1 with the payload
    [{"Rollno": "2"}] succeeds and leaves two records with identifier 2. *)
Theorem update_breaks_identifier_uniqueness :
  let g := load_globals (Config None None None None) in
  let records := [row "1" "Asha" "90" "80" "70"; row "2" "Ravi" "100" "100" "99"] in
  let fs : filesystem := {[ "data.csv" := Rows records ]} in
  let data : gmap string value := {[ "Rollno" := VStr "2" ]} in
  let records' := [row "2" "Asha" "90" "80" "70"; row "2" "Ravi" "100" "100" "99"] in
  "Rollno" ∈ valid_fields
  ∧ identifiers records = [VStr "1"; VStr "2"]
  ∧ NoDup (identifiers records)
  ∧ @update_record csv_runtime g "1" data fs
    = ((JsonMessage "Record with Rollno 1 updated successfully", 200),
       {[ "data.csv" := Rows records' ]})
  ∧ identifiers records' = [VStr "2"; VStr "2"]
  ∧ ¬ NoDup (identifiers records').
Proof.
  split_and!.
  - repeat constructor.
  - vm_compute. reflexivity.
  - assert (Hids : identifiers
        [row "1" "Asha" "90" "80" "70"; row "2" "Ravi" "100" "100" "99"]
        = [VStr "1"; VStr "2"]) by (vm_compute; reflexivity).
    rewrite Hids. apply NoDup_cons. split.
    + intros Hin. apply list_elem_of_singleton in Hin. discriminate.
    + apply NoDup_singleton.
  - vm_compute. reflexivity.
  - vm_compute. reflexivity.
  - assert (Hids : identifiers
        [row "2" "Asha" "90" "80" "70"; row "2" "Ravi" "100" "100" "99"]
        = [VStr "2"; VStr "2"]) by (vm_compute; reflexivity).
    rewrite Hids. intros Hnodup. apply NoDup_cons in Hnodup as [Hnotin _].
    apply Hnotin. constructor.
Qed.

(** ** The worker pool: what every run preserves *)

Lemma thread_split (ts : list thread) (i : nat) (t : thread) :
  ts !! i = Some t →
  ∃ l1 l2, ts = l1 ++ t :: l2 ∧ ∀ t', <[i:=t']> ts = l1 ++ t' :: l2.
Proof.
  intros Hi. exists (take i ts), (drop (S i) ts). split.
  - by rewrite take_drop_middle.
  - intros t'. apply insert_take_drop. by eapply lookup_lt_Some.
Qed.

Lemma held_middle (l1 l2 : list thread) (t : thread) :
  held (l1 ++ t :: l2)
  = held l1 ++ match t with Holding c => [c] | _ => [] end ++ held l2.
Proof. unfold held. rewrite omap_app. simpl. by destruct t. Qed.

(** Permutations that differ by the place of one chunk. *)
Ltac move_chunk :=
  rewrite <- ?app_assoc; simpl; rewrite <- ?Permutation_middle; reflexivity.

Section pool_invariant.
Context `{PyRuntime}.

Lemma pool_inv_start (records : list record) (n : nat) :
  pool_inv (queue (start_pool records n)) (start_pool records n).
Proof.
  unfold pool_inv, start_pool; simpl. split_and!.
  - exists []. split; [|done]. simpl.
    replace (held (replicate n AtTest)) with (@nil (list record)); [done|].
    induction n as [|n IH]; [done|]. simpl. exact IH.
  - intros e He. by apply elem_of_replicate_inv in He.
  - intros Hf. by apply elem_of_replicate_inv in Hf.
Qed.

Lemma pool_inv_step (chunks : list (list record)) (i : nat) (p p' : pool) :
  pool_inv chunks p → pool_step i p = Some p' → pool_inv chunks p'.
Proof.
  intros ((taken & Hchunks & Hres) & Hcrashed & Hfinished) Hstep.
  destruct p as [q res ts]. unfold pool_step in Hstep. simpl in *.
  destruct (ts !! i) as [t|] eqn:Hi; [|done]. simpl in Hstep.
  destruct (thread_split ts i t Hi) as (l1 & l2 & -> & Hins).
  rewrite held_middle in Hchunks.
  assert (Hmem : ∀ x t', x ∈ l1 ++ t' :: l2 → x ≠ t' → x ∈ l1 ++ t :: l2).
  { intros x t' Hx Hne. rewrite elem_of_app, elem_of_cons in Hx.
    rewrite elem_of_app, elem_of_cons. tauto. }
  destruct t as [| |c| |e]; simpl in Hstep.
  - (* the test of the loop *)
    destruct q as [|c q]; injection Hstep as <-; unfold pool_inv; simpl;
      rewrite Hins, held_middle; simpl.
    + split_and!; [by exists taken | | done].
      intros e He. apply Hcrashed. by eapply Hmem.
    + split_and!; [by exists taken | | ].
      * intros e He. apply Hcrashed. by eapply Hmem.
      * intros Hf. apply Hfinished. by eapply Hmem.
  - (* [q.get()] *)
    destruct q as [|c q]; [done|]. injection Hstep as <-. unfold pool_inv; simpl.
    rewrite Hins, held_middle; simpl. split_and!.
    + exists taken. split; [|done]. rewrite Hchunks. move_chunk.
    + intros e He. apply Hcrashed. by eapply Hmem.
    + intros Hf. assert (Hq : c :: q = []); [|done].
      apply Hfinished. by eapply Hmem.
  - (* [student_average] and the extension of [results] *)
    assert (Htaken : chunks ≡ₚ (c :: taken) ++ (held l1 ++ held l2) ++ q).
    { rewrite Hchunks. move_chunk. }
    assert (Hc : c ∈ chunks).
    { rewrite Htaken. constructor. }
    destruct (student_average c) as [r|e] eqn:Hr; injection Hstep as <-;
      unfold pool_inv; simpl; rewrite Hins, held_middle; simpl.
    + split_and!.
      * exists (c :: taken). split; [done|].
        rewrite bind_cons, Hres. unfold items at 2. rewrite Hr.
        apply Permutation_app_comm.
      * intros e He. apply Hcrashed. by eapply Hmem.
      * intros Hf. apply Hfinished. by eapply Hmem.
    + split_and!.
      * exists (c :: taken). split; [done|].
        rewrite bind_cons. unfold items at 1. by rewrite Hr.
      * intros e' He'. destruct (decide (e' = e)) as [->|Hne]; [by exists c|].
        apply Hcrashed. eapply Hmem; [done|]. congruence.
      * intros Hf. apply Hfinished. by eapply Hmem.
  - done.
  - done.
Qed.

Lemma pool_inv_run (chunks : list (list record)) (sched : list nat) (p : pool) :
  pool_inv chunks p → pool_inv chunks (run sched p).
Proof.
  revert p. induction sched as [|i sched IH]; intros p Hp; [done|].
  unfold run. simpl. apply IH.
  destruct (pool_step i p) as [p'|] eqn:Hstep; simpl; [|done].
  by eapply pool_inv_step.
Qed.
End pool_invariant.

(** ** The worker pool: a run that completes exists *)

Section completion.
Context `{PyRuntime}.

Lemma run_app (s1 s2 : list nat) (p : pool) :
  run (s1 ++ s2) p = run s2 (run s1 p).
Proof. unfold run. apply foldl_app. Qed.

Lemma pool_step_insert (i : nat) (q : list (list record)) (res : list item)
    (ts : list thread) (t : thread) :
  i < length ts →
  pool_step i (Pool q res (<[i:=t]> ts))
  = '(t', q', res') ← worker t q res; Some (Pool q' res' (<[i:=t']> ts)).
Proof.
  intros Hi. unfold pool_step. simpl.
  rewrite list_lookup_insert_eq by done. simpl.
  destruct (worker t q res) as [[[t' q'] res']|]; simpl; [|done].
  by rewrite list_insert_insert_eq.
Qed.

(** The steps of a thread that has terminated change nothing. *)
Lemma run_terminated (k i : nat) (q : list (list record)) (res : list item)
    (ts : list thread) (t : thread) :
  i < length ts → terminated t = true →
  run (replicate k i) (Pool q res (<[i:=t]> ts)) = Pool q res (<[i:=t]> ts).
Proof.
  intros Hi Ht. induction k as [|k IH]; [done|].
  simpl. unfold run in *. simpl. rewrite pool_step_insert by done.
  destruct t; try done; simpl; exact IH.
Qed.

(** A thread that runs alone leaves its loop, or crashes, within three
    steps per chunk of the queue and one more. *)
Lemma run_solo (q : list (list record)) (res : list item) (ts : list thread)
    (k i : nat) :
  i < length ts → 3 * length q + 1 ≤ k →
  ∃ q' res' t,
    run (replicate k i) (Pool q res (<[i:=AtTest]> ts)) = Pool q' res' (<[i:=t]> ts)
    ∧ terminated t = true ∧ length q' ≤ length q.
Proof.
  intros Hi. revert res k.
  induction q as [|c q IH]; intros res k Hk.
  - destruct k as [|k]; [simpl in Hk; lia|].
    exists [], res, Finished. split_and!; [|done|done].
    simpl. unfold run. simpl. rewrite pool_step_insert by done. simpl.
    by apply run_terminated.
  - do 3 (destruct k as [|k]; [simpl in Hk; lia|]).
    simpl. unfold run. simpl.
    rewrite pool_step_insert by done. simpl.
    rewrite pool_step_insert by done. simpl.
    rewrite pool_step_insert by done. simpl.
    destruct (student_average c) as [r|e]; simpl.
    + destruct (IH (res ++ extend_items r) k) as (q' & res' & t & Hrun & Ht & Hlen).
      { simpl in Hk. lia. }
      exists q', res', t. split_and!; [exact Hrun | done | simpl; lia].
    + exists q, res, (Crashed e). split_and!; [|done|simpl; lia].
      by apply run_terminated.
Qed.

(** Letting the threads run one after the other brings every one of them
    to its end. *)
Lemma run_sequential (m : nat) (finished : list thread) (q : list (list record))
    (res : list item) (steps : nat) :
  Forall (λ t, terminated t = true) finished →
  3 * length q + 1 ≤ steps →
  joined (run (seq (length finished) m ≫= replicate steps)
              (Pool q res (finished ++ replicate m AtTest))) = true.
Proof.
  revert finished q res.
  induction m as [|m IH]; intros finished q res Hfin Hsteps.
  - simpl. rewrite app_nil_r. unfold joined. simpl.
    apply forallb_forall. intros t Ht. apply list_elem_of_In in Ht.
    by eapply (proj1 (Forall_forall _ _) Hfin).
  - simpl seq. rewrite bind_cons, run_app.
    pose proof (run_solo q res (finished ++ replicate (S m) AtTest) steps
                  (length finished)) as Hsolo.
    destruct Hsolo as (q' & res' & t & Hrun & Ht & Hlen).
    { rewrite length_app. simpl. lia. }
    { done. }
    rewrite list_insert_id in Hrun
      by (rewrite lookup_app_r, Nat.sub_diag by lia; done).
    rewrite Hrun.
    replace (<[length finished:=t]> (finished ++ replicate (S m) AtTest))
      with ((finished ++ [t]) ++ replicate m AtTest).
    + replace (S (length finished)) with (length (finished ++ [t]))
        by (rewrite length_app; simpl; lia).
      apply IH; [|lia].
      apply Forall_app. split; [done|]. by apply Forall_singleton.
    + rewrite <- (Nat.add_0_r (length finished)) at 1.
      rewrite insert_app_r. simpl. by rewrite <- app_assoc.
Qed.

Lemma run_threads_length (sched : list nat) (p : pool) :
  length (threads (run sched p)) = length (threads p).
Proof.
  revert p. induction sched as [|i sched IH]; intros p; [done|].
  unfold run in *. simpl. rewrite IH.
  unfold pool_step.
  destruct (threads p !! i) as [t|]; simpl; [|done].
  destruct (worker t (queue p) (results p)) as [[[t' q'] res']|]; simpl; [|done].
  by rewrite length_insert.
Qed.

Lemma enqueue_chunks_count (records : list record) (cs : nat) :
  0 < cs → length (enqueue_chunks records cs) ≤ length records.
Proof.
  intros Hcs. rewrite enqueue_chunks_length by done.
  destruct (decide (ceil_div (length records) cs ≤ length records)) as [|Hgt]; [done|].
  assert (Hlt : length records < ceil_div (length records) cs) by lia.
  apply ceil_div_lt in Hlt; [|done]. nia.
Qed.

Lemma start_workers_joined (g : globals) (records : list record) (steps : nat) :
  3 * length records + 1 ≤ steps →
  joined (run (sequential_schedule steps 10) (start_workers g records)) = true.
Proof.
  intros Hsteps.
  apply (run_sequential 10 [] (enqueue_chunks records (chunk_size 10 records)) []
           steps (Forall_nil_2 _)).
  pose proof (enqueue_chunks_count records (chunk_size 10 records)
                (chunk_size_pos _ _)).
  lia.
Qed.

(** Under the sequential schedule [average_scores] answers. *)
Lemma average_scores_completes (g : globals) (fs : filesystem)
    (records : list record) :
  fs !! csv_file g = Some (Rows records) →
  ∃ r, average_scores g fs (sequential_schedule (3 * length records + 1) 10) = Some (Ok r).
Proof.
  intros Hfile. unfold average_scores, read_csv, py_open. rewrite Hfile.
  destruct records as [|r0 records]; [by eexists|].
  unfold as_records.
  rewrite start_workers_joined by done. by eexists.
Qed.
End completion.

(** ** What a completed run returns *)

Lemma identifiers_app (l k : list record) :
  identifiers (l ++ k) = identifiers l ++ identifiers k.
Proof. apply omap_app. Qed.

Lemma identifiers_cons (r : record) (l : list record) :
  identifiers (r :: l)
  = match r !! "Rollno" with Some v => v :: identifiers l | None => identifiers l end.
Proof. unfold identifiers. simpl. by destruct (r !! "Rollno"). Qed.

Section completed_run.
Context `{PyRuntime}.

Lemma derived_of_chars (msg : string) : derived_of (chars msg) = [].
Proof. induction msg as [|c msg IH]; [done|]. exact IH. Qed.

Lemma derived_of_IDict (ds : list derived) : derived_of (IDict <$> ds) = ds.
Proof.
  induction ds as [|d ds IH]; [done|].
  rewrite fmap_cons. unfold derived_of in *. simpl. f_equal. exact IH.
Qed.

Lemma derived_of_app (l k : list item) :
  derived_of (l ++ k) = derived_of l ++ derived_of k.
Proof. apply omap_app. Qed.

Lemma parsed_app (l k : list record) : parsed (l ++ k) = parsed l ++ parsed k.
Proof. apply omap_app. Qed.

Lemma parsed_cons (r : record) (l : list record) :
  parsed (r :: l)
  = match average_record r with Ok d => d :: parsed l | Exn _ => parsed l end.
Proof. unfold parsed. simpl. by destruct (average_record r). Qed.

Lemma parsed_Forall2 (records : list record) (ds : list derived) :
  Forall2 (λ r d, average_record r = Ok d) records ds → parsed records = ds.
Proof.
  induction 1 as [|r d records ds Hr _ IH]; [done|].
  by rewrite parsed_cons, Hr, IH.
Qed.

Lemma clean_Forall2 (chunk : list record) :
  clean chunk = true ↔ ∃ ds, Forall2 (λ r d, average_record r = Ok d) chunk ds.
Proof.
  unfold clean. induction chunk as [|r chunk IH]; simpl.
  - split; [|done]. intros _. exists []. constructor.
  - rewrite andb_true_iff, IH. unfold parses. split.
    + intros [Hr [ds Hds]]. destruct (average_record r) as [d|] eqn:Hd; [|done].
      exists (d :: ds). by constructor.
    + intros (ds & Hds). apply Forall2_cons_inv_l in Hds as (d & ds' & Hd & Hds' & ->).
      rewrite Hd. split; [done|]. by exists ds'.
Qed.

(** A chunk adds its derived records when all its records parse, and no
    derived record at all otherwise. *)
Lemma items_clean (chunk : list record) :
  clean chunk = true → items chunk = IDict <$> parsed chunk.
Proof.
  intros (ds & Hds)%clean_Forall2. unfold items.
  by rewrite (student_average_parsed _ _ Hds), (parsed_Forall2 _ _ Hds).
Qed.

Lemma derived_of_items (chunk : list record) :
  derived_of (items chunk) = if clean chunk then parsed chunk else [].
Proof.
  destruct (clean chunk) eqn:Hclean.
  - by rewrite items_clean, derived_of_IDict.
  - destruct (records_parsed_or_failure chunk)
      as [Hds|(before & ds & record & after & e & -> & Hds & He)].
    + apply clean_Forall2 in Hds. congruence.
    + unfold items.
      rewrite (student_average_first_failure _ _ _ _ _ Hds He).
      destruct e; simpl; by rewrite ?derived_of_chars.
Qed.

Lemma parsed_identifiers (chunk : list record) :
  clean chunk = true → d_Rollno <$> parsed chunk = identifiers chunk.
Proof.
  intros (ds & Hds)%clean_Forall2. rewrite (parsed_Forall2 _ _ Hds).
  induction Hds as [|r d records ds Hr _ IH]; [done|].
  destruct (average_record_Ok r d Hr) as [Hid _].
  by rewrite fmap_cons, identifiers_cons, Hid, IH.
Qed.

Lemma identifiers_submseteq (chunk : list record) :
  d_Rollno <$> derived_of (items chunk) ⊆+ identifiers chunk.
Proof.
  rewrite derived_of_items. destruct (clean chunk) eqn:Hclean.
  - by rewrite parsed_identifiers.
  - apply submseteq_nil_l.
Qed.

Lemma elem_of_concat_intro {A} (x : A) (c : list A) (l : list (list A)) :
  x ∈ c → c ∈ l → x ∈ concat l.
Proof.
  intros Hx Hc. apply list_elem_of_In, in_concat.
  exists c. split; by apply list_elem_of_In.
Qed.

Lemma concat_Permutation {A} (l k : list (list A)) : l ≡ₚ k → concat l ≡ₚ concat k.
Proof.
  induction 1 as [|x l k _ IH|x y l|l k m _ IH1 _ IH2]; simpl.
  - done.
  - by rewrite IH.
  - rewrite !app_assoc. by rewrite (Permutation_app_comm y x).
  - by rewrite IH1.
Qed.

Lemma derived_of_bind (l : list (list record)) :
  derived_of (l ≫= items) = parsed (concat (filter (λ c, clean c = true) l)).
Proof.
  induction l as [|c l IH]; [done|].
  rewrite bind_cons, derived_of_app, IH, derived_of_items.
  rewrite filter_cons. destruct (clean c) eqn:Hclean.
  - rewrite decide_True by done. by rewrite concat_cons, parsed_app.
  - rewrite decide_False by done. done.
Qed.

Lemma identifiers_bind (l : list (list record)) :
  d_Rollno <$> derived_of (l ≫= items) ⊆+ identifiers (concat l).
Proof.
  induction l as [|c l IH]; [done|].
  rewrite bind_cons, derived_of_app, fmap_app, concat_cons, identifiers_app.
  apply submseteq_app; [apply identifiers_submseteq | exact IH].
Qed.

Lemma items_bind_clean (l : list (list record)) :
  Forall (λ c, clean c = true) l → l ≫= items = IDict <$> parsed (concat l).
Proof.
  induction 1 as [|c l Hc _ IH]; [done|].
  rewrite bind_cons, IH, items_clean by done.
  by rewrite concat_cons, parsed_app, fmap_app.
Qed.

Lemma joined_held (p : pool) : joined p = true → held (threads p) = [].
Proof.
  unfold joined. induction (threads p) as [|t ts IH]; [done|]. simpl.
  intros [Ht Hts]%andb_true_iff. unfold held in *. simpl.
  destruct t; try done; by apply IH.
Qed.

Lemma joined_threads (p : pool) (t : thread) :
  joined p = true → t ∈ threads p → t = Finished ∨ ∃ e, t = Crashed e.
Proof.
  unfold joined. rewrite forallb_forall. intros Hall Ht.
  apply list_elem_of_In, Hall in Ht. destruct t; try done; eauto.
Qed.

(** The exceptions of the [try] block. *)
Lemma average_record_Exn (r : record) (e : exn) :
  average_record r = Exn e →
  e = TypeError ∨ (∃ k, e = KeyError k) ∨ ∃ m, e = ValueError m.
Proof.
  unfold average_record, getitem, py_float, mbind, result_bind.
  repeat (case_match; try done); intros [= <-]; simplify_eq; eauto.
Qed.

(** The only exception that leaves [average_record] uncaught by
    [student_average] is the [TypeError] of [float(None)]. *)
Lemma student_average_Exn (chunk : list record) (e : exn) :
  student_average chunk = Exn e →
  e = TypeError ∧ ∃ r, r ∈ chunk ∧ average_record r = Exn TypeError.
Proof.
  intros Hres.
  destruct (records_parsed_or_failure chunk)
    as [[ds Hds]|(before & ds & record & after & e' & -> & Hds & He)].
  - by rewrite (student_average_parsed _ _ Hds) in Hres.
  - rewrite (student_average_first_failure _ _ _ _ _ Hds He) in Hres.
    destruct (average_record_Exn _ _ He) as [->|[[k ->]|[m ->]]]; [|done|done].
    injection Hres as <-. split; [done|]. exists record. split; [|done].
    rewrite elem_of_app, elem_of_cons. auto.
Qed.

(** The state of the pool when [average_scores] has joined its threads. *)
Lemma completed_run (g : globals) (records : list record) (sched : list nat) :
  let p := run sched (start_workers g records) in
  joined p = true →
  ∃ taken,
    chunks_of records ≡ₚ taken ++ queue p
    ∧ results p ≡ₚ taken ≫= items
    ∧ (Forall (λ r, average_record r ≠ Exn TypeError) records → queue p = []).
Proof.
  intros p Hjoined.
  pose proof (pool_inv_run _ sched _ (pool_inv_start records 10)) as Hinv.
  fold (start_workers g records) in Hinv. fold p in Hinv.
  destruct Hinv as ((taken & Hchunks & Hres) & Hcrashed & Hfinished).
  rewrite (joined_held p Hjoined) in Hchunks. simpl in Hchunks.
  exists taken. split_and!; [done|done|].
  intros Hnocrash. apply Hfinished.
  assert (Hlen : length (threads p) = 10).
  { unfold p. rewrite run_threads_length. reflexivity. }
  destruct (threads p) as [|t ts] eqn:Hts; [done|].
  assert (Ht : t ∈ threads p) by (rewrite Hts; constructor).
  destruct (joined_threads p t Hjoined Ht) as [->|[e ->]]; [constructor|].
  destruct (Hcrashed e ltac:(constructor)) as (c & Hc & He).
  apply student_average_Exn in He as (_ & r & Hr & Hbad).
  exfalso. eapply (proj1 (Forall_forall _ _) Hnocrash r); [|done].
  assert (Hrc : r ∈ concat (queue (start_pool records 10))).
  { by eapply elem_of_concat_intro. }
  unfold start_pool in Hrc. simpl in Hrc.
  by rewrite enqueue_chunks_concat in Hrc by apply chunk_size_pos.
Qed.
End completed_run.

(** ** The answer of [average_scores] (C2) *)

Lemma submseteq_NoDup {A} (l k : list A) : l ⊆+ k → NoDup k → NoDup l.
Proof.
  intros [k' Hk]%submseteq_Permutation Hnodup.
  rewrite Hk in Hnodup. by apply NoDup_app in Hnodup as [? _].
Qed.

Section answer.
Context `{PyRuntime}.

Lemma average_scores_unfold (g : globals) (fs : filesystem) (records : list record)
    (sched : list nat) :
  fs !! csv_file g = Some (Rows records) → records ≠ [] →
  average_scores g fs sched
  = let p := run sched (start_workers g records) in
    if joined p then Some (Ok (respond (results p))) else None.
Proof.
  intros Hfile Hne. unfold average_scores, read_csv, py_open. rewrite Hfile.
  by destruct records.
Qed.

Lemma average_scores_averages (g : globals) (fs : filesystem) (records : list record)
    (sched : list nat) (out : list item) (status : nat) :
  fs !! csv_file g = Some (Rows records) →
  average_scores g fs sched = Some (Ok (JsonAverages out, status)) →
  joined (run sched (start_workers g records)) = true
  ∧ results (run sched (start_workers g records)) = out
  ∧ status = 200.
Proof.
  intros Hfile Hres.
  destruct (decide (records = [])) as [->|Hne].
  { unfold average_scores, read_csv, py_open in Hres. by rewrite Hfile in Hres. }
  rewrite (average_scores_unfold _ _ _ _ Hfile Hne) in Hres. simpl in Hres.
  destruct (joined _); [|done]. unfold respond in Hres.
  destruct (results _); by simplify_eq.
Qed.

Lemma chunks_of_concat (records : list record) : concat (chunks_of records) = records.
Proof. apply enqueue_chunks_concat, chunk_size_pos. Qed.

Lemma taken_identifiers (records : list record) (taken q : list (list record)) :
  chunks_of records ≡ₚ taken ++ q →
  identifiers (concat taken) ⊆+ identifiers records.
Proof.
  intros Hperm. apply concat_Permutation in Hperm.
  rewrite chunks_of_concat, concat_app in Hperm.
  unfold identifiers at 2. rewrite Hperm. fold (identifiers (concat taken ++ concat q)).
  rewrite identifiers_app. by apply submseteq_inserts_r.
Qed.

Lemma clean_chunks_identifiers (l : list (list record)) :
  Forall (λ c, clean c = true) l →
  d_Rollno <$> parsed (concat l) = identifiers (concat l).
Proof.
  induction 1 as [|c l Hc _ IH]; [done|].
  by rewrite concat_cons, parsed_app, fmap_app, identifiers_app, IH, parsed_identifiers.
Qed.

Lemma all_parse_clean (records : list record) :
  Forall (λ r, parses r = true) records →
  clean records = true ∧ Forall (λ c, clean c = true) (chunks_of records)
  ∧ Forall (λ r, average_record r ≠ Exn TypeError) records
  ∧ length (parsed records) = length records.
Proof.
  intros Hall. split_and!.
  - unfold clean. apply forallb_forall. intros r Hr%list_elem_of_In.
    by apply (proj1 (Forall_forall _ _) Hall).
  - apply Forall_forall. intros c Hc. unfold clean. apply forallb_forall.
    intros r Hr%list_elem_of_In.
    apply (proj1 (Forall_forall _ _) Hall).
    rewrite <- (chunks_of_concat records). by eapply elem_of_concat_intro.
  - eapply Forall_impl; [exact Hall|]. intros r Hr Hbad. unfold parses in Hr.
    by rewrite Hbad in Hr.
  - induction Hall as [|r records Hr _ IH]; [done|].
    rewrite parsed_cons. unfold parses in Hr.
    destruct (average_record r); [|done]. simpl. by rewrite IH.
Qed.

(** What [average_scores] returns when its threads are joined, in terms of
    the chunks that were processed. *)
Lemma answer_processed (g : globals) (fs : filesystem) (records : list record)
    (sched : list nat) (out : list item) (status : nat) :
  fs !! csv_file g = Some (Rows records) →
  average_scores g fs sched = Some (Ok (JsonAverages out, status)) →
  ∃ taken q,
    chunks_of records ≡ₚ taken ++ q
    ∧ out ≡ₚ taken ≫= items
    ∧ (Forall (λ r, average_record r ≠ Exn TypeError) records → q = []).
Proof.
  intros Hfile Hres.
  destruct (average_scores_averages _ _ _ _ _ _ Hfile Hres) as (Hjoined & <- & _).
  destruct (completed_run g records sched Hjoined) as (taken & Hchunks & Hout & Hq).
  by exists taken, (queue (run sched (start_workers g records))).
Qed.
End answer.

(** C2 fails on a store that [update_record] wrote. The store has the
    identifiers 1 and 2; record 1 is given the identifier 2 through
    [update_record]; [average_scores] on the file that update wrote
    returns the identifier 2 twice. *)
Lemma duplicate_identifier_in_output :
  let g := load_globals (Config None None None None) in
  let records := [row "1" "Asha" "90" "80" "70"; row "2" "Ravi" "100" "100" "99"] in
  let fs : filesystem := {[ "data.csv" := Rows records ]} in
  let fs' := (@update_record csv_runtime g "1" {[ "Rollno" := VStr "2" ]} fs).2 in
  let out := [IDict (Derived (VStr "2") (VStr "Asha") 80%float);
              IDict (Derived (VStr "2") (VStr "Ravi") 0x1.8eae147ae147bp+6%float)] in
  identifiers records = [VStr "1"; VStr "2"]
  ∧ @average_scores csv_runtime g fs' (sequential_schedule 7 10)
    = Some (Ok (JsonAverages out, 200))
  ∧ d_Rollno <$> derived_of out = [VStr "2"; VStr "2"].
Proof.
  split_and!.
  - vm_compute. reflexivity.
  - vm_compute. reflexivity.
  - reflexivity.
Qed.

(** C2, as the code has it. For the record set read from the file and every
    run of the workers after which [average_scores] returns its list:
    - an identifier occurs among the derived records of the output at most
      as often as among the input records, so the identifiers of the output
      are pairwise distinct when those of the input are;
    - when no numeric cell is [None] (no worker crashes), the derived
      records of the output are, as a multiset, those of the records of the
      chunks in which every record parses, and so are their identifiers;
    - when every record parses, the output is, up to order, one derived
      record per input record, with the identifiers of the input.
    For a non-empty record set of which every record parses such a run
    exists: under the sequential schedule the answer is a list of averages
    with status 200. *)
Theorem aggregation_identifiers `{PyRuntime} (g : globals) (fs : filesystem)
    (records : list record) :
  fs !! csv_file g = Some (Rows records) →
  (∀ sched out status,
     average_scores g fs sched = Some (Ok (JsonAverages out, status)) →
     d_Rollno <$> derived_of out ⊆+ identifiers records
     ∧ (NoDup (identifiers records) → NoDup (d_Rollno <$> derived_of out))
     ∧ (Forall (λ r, average_record r ≠ Exn TypeError) records →
          let processed := concat (filter (λ c, clean c = true) (chunks_of records)) in
          derived_of out ≡ₚ parsed processed
          ∧ d_Rollno <$> derived_of out ≡ₚ identifiers processed)
     ∧ (Forall (λ r, parses r = true) records →
          out ≡ₚ IDict <$> parsed records
          ∧ length out = length records
          ∧ d_Rollno <$> derived_of out ≡ₚ identifiers records))
  ∧ (records ≠ [] → Forall (λ r, parses r = true) records →
       ∃ out, average_scores g fs (sequential_schedule (3 * length records + 1) 10)
              = Some (Ok (JsonAverages out, 200))).
Proof.
  intros Hfile.
  assert (Hmain : ∀ sched out status,
    average_scores g fs sched = Some (Ok (JsonAverages out, status)) →
    d_Rollno <$> derived_of out ⊆+ identifiers records
    ∧ (Forall (λ r, average_record r ≠ Exn TypeError) records →
         derived_of out
         ≡ₚ parsed (concat (filter (λ c, clean c = true) (chunks_of records))))
    ∧ (Forall (λ r, parses r = true) records → out ≡ₚ IDict <$> parsed records)).
  { intros sched out status Hres.
    destruct (answer_processed _ _ _ _ _ _ Hfile Hres) as (taken & q & Hchunks & Hout & Hq).
    assert (Hder : derived_of out ≡ₚ derived_of (taken ≫= items)).
    { unfold derived_of. by rewrite Hout. }
    split_and!.
    - rewrite Hder. etrans; [apply identifiers_bind|].
      by eapply taken_identifiers.
    - intros Hnocrash. rewrite (Hq Hnocrash), app_nil_r in Hchunks.
      rewrite Hder, derived_of_bind. unfold parsed.
      apply omap_Permutation, concat_Permutation. by rewrite Hchunks.
    - intros Hall.
      destruct (all_parse_clean records Hall) as (_ & Hclean & Hnocrash & _).
      rewrite (Hq Hnocrash), app_nil_r in Hchunks.
      rewrite Hout, <- Hchunks, items_bind_clean by done.
      by rewrite chunks_of_concat. }
  split.
  - intros sched out status Hres.
    destruct (Hmain sched out status Hres) as (Hsub & Hproc & Hall).
    split_and!.
    + done.
    + intros Hnodup. by eapply submseteq_NoDup.
    + intros Hnocrash processed. subst processed. split; [by apply Hproc|].
      rewrite (Hproc Hnocrash).
      rewrite clean_chunks_identifiers; [done|].
      apply Forall_forall. intros c Hc. by apply list_elem_of_filter in Hc as [? _].
    + intros Hparse.
      destruct (all_parse_clean records Hparse) as (Hclean & _ & _ & Hlen).
      pose proof (Hall Hparse) as Hout. split_and!.
      * done.
      * by rewrite Hout, length_fmap.
      * unfold derived_of. rewrite Hout. fold (derived_of (IDict <$> parsed records)).
        by rewrite derived_of_IDict, parsed_identifiers.
  - intros Hne Hparse.
    destruct (average_scores_completes g fs records Hfile) as [[b status] Hres].
    rewrite (average_scores_unfold _ _ _ _ Hfile Hne) in Hres. simpl in Hres.
    destruct (joined _) eqn:Hjoined; [|done].
    destruct (results _) as [|i out] eqn:Hout.
    + exfalso.
      assert (Hres' : average_scores g fs (sequential_schedule (3 * length records + 1) 10)
                      = Some (Ok (JsonError "No results computed", 500))).
      { rewrite (average_scores_unfold _ _ _ _ Hfile Hne). simpl.
        by rewrite Hjoined, Hout. }
      destruct (completed_run g records _ Hjoined) as (taken & Hchunks & Hres'' & Hq).
      destruct (all_parse_clean records Hparse) as (_ & Hclean & Hnocrash & Hlen).
      rewrite (Hq Hnocrash), app_nil_r in Hchunks.
      rewrite Hout, <- Hchunks, items_bind_clean, chunks_of_concat in Hres'' by done.
      apply Permutation_length in Hres''. rewrite length_fmap, Hlen in Hres''.
      destruct records as [|r0 records]; [by apply Hne|]. simpl in Hres''. lia.
    + exists (i :: out).
      rewrite (average_scores_unfold _ _ _ _ Hfile Hne). simpl.
      by rewrite Hjoined, Hout.
Qed.

Lemma aggregation_identifiers_example :
  let g := load_globals (Config None None None None) in
  let records := [row "1" "Asha" "90" "80" "70"; row "2" "Ravi" "100" "100" "99"] in
  let fs : filesystem := {[ "data.csv" := Rows records ]} in
  ∃ out, @average_scores csv_runtime g fs (sequential_schedule 7 10)
         = Some (Ok (JsonAverages out, 200)).
Proof.
  intros g records fs.
  apply (@aggregation_identifiers csv_runtime g fs records).
  - vm_compute. reflexivity.
  - discriminate.
  - repeat constructor.
Defined.

(** ** A run that never completes

    Two workers can both pass the test [not q.empty()] while one chunk is
    left; the one that comes second to [q.get()] waits for ever, and so
    does [join]. This is why the statements above speak of the runs after
    which [average_scores] returns. *)

Lemma run_blocked `{PyRuntime} (sched : list nat) (res : list item)
    (ts : list thread) :
  Forall (λ t, t = AtGet ∨ terminated t = true) ts →
  run sched (Pool [] res ts) = Pool [] res ts.
Proof.
  intros Hts. induction sched as [|i sched IH]; [done|].
  unfold run in *. simpl.
  replace (pool_step i (Pool [] res ts)) with (@None pool); [exact IH|].
  unfold pool_step. simpl.
  destruct (ts !! i) as [t|] eqn:Hi; [|done]. simpl.
  apply list_elem_of_lookup_2 in Hi.
  destruct (proj1 (Forall_forall _ _) Hts t Hi) as [->|Ht]; [done|].
  by destruct t.
Qed.

Lemma average_scores_can_wait_for_ever (sched : list nat) :
  let g := load_globals (Config None None None None) in
  let fs : filesystem := {[ "data.csv" := Rows [row "1" "Asha" "90" "80" "70"] ]} in
  @average_scores csv_runtime g fs ([0; 1; 0; 1; 0; 0; 2; 3; 4; 5; 6; 7; 8; 9] ++ sched)
  = None.
Proof.
  intros g fs.
  rewrite (@average_scores_unfold csv_runtime g fs [row "1" "Asha" "90" "80" "70"])
    by (try discriminate; vm_compute; reflexivity).
  cbv zeta. rewrite run_app.
  set (p := run _ (start_workers _ _)).
  assert (Hp : p = Pool [] [IDict (Derived (VStr "1") (VStr "Asha") 80%float)]
                 [Finished; AtGet; Finished; Finished; Finished; Finished;
                  Finished; Finished; Finished; Finished])
    by (vm_compute; reflexivity).
  rewrite Hp, run_blocked.
  - reflexivity.
  - repeat (apply Forall_cons; split;
            [first [left; reflexivity | right; reflexivity]|]).
    apply Forall_nil_2.
Qed.

(** * More properties of the service *)

Lemma row_in_schema (rollno name english maths science : string) :
  in_schema (row rollno name english maths science).
Proof.
  unfold in_schema. apply map_eq. intros key. rewrite stored_lookup. unfold row.
  case_decide as Hkey.
  - unfold fieldnames in Hkey.
    repeat (apply elem_of_cons in Hkey as [->|Hkey]; [by simplify_map_eq|]).
    by apply elem_of_nil in Hkey.
  - unfold fieldnames in Hkey.
    assert (key ≠ "Rollno" ∧ key ≠ "name" ∧ key ≠ "english" ∧ key ≠ "maths"
            ∧ key ≠ "science") as (? & ? & ? & ? & ?)
      by (split_and!; intros ->; apply Hkey; repeat constructor).
    by simplify_map_eq.
Qed.

(** ** Writing and reading the file *)



Lemma columns_dom (r : record) :
  dom r ⊆ list_to_set fieldnames → ∀ key, key ∉ fieldnames → r !! key = None.
Proof.
  intros Hdom key Hkey. apply not_elem_of_dom. intros Hin.
  apply Hkey. apply Hdom in Hin. by apply elem_of_list_to_set in Hin.
Qed.



(** X2. A row with a key that is no column stops [write_csv] with a
    [ValueError]; the file then holds the rows that came before it and
    nothing else: the rows after it, and whatever the file held, are gone. *)
Theorem write_csv_stops_at_unknown_key (g : globals) (good : list record)
    (bad : record) (rest : list record) (fs : filesystem) :
  fs !! csv_file g ≠ Some Locked →
  Forall (λ r, ∀ key, key ∉ fieldnames → r !! key = None) good →
  (∃ key, (key ∉ fieldnames) ∧ is_Some (bad !! key)) →
  write_csv g (good ++ bad :: rest) fs
  = (Exn (ValueError "dict contains fields not in fieldnames"),
     <[csv_file g := Rows (stored <$> good)]> fs).
Proof.
  intros Hlocked Hgood (key & Hkey & Hbad).
  assert (Hrows : writerows (good ++ bad :: rest)
                  = (stored <$> good,
                     Some (ValueError "dict contains fields not in fieldnames"))).
  { induction Hgood as [|r good Hr _ IH]; simpl.
    - unfold dict_to_list. rewrite decide_False; [done|].
      intros Hsub. apply Hkey.
      assert (Hin : key ∈ dom bad) by by apply elem_of_dom.
      apply Hsub in Hin. by apply elem_of_list_to_set in Hin.
    - by rewrite (dict_to_list_columns r Hr), IH. }
  unfold write_csv. rewrite Hrows.
  destruct (fs !! csv_file g) as [[]|]; done.
Qed.

Lemma write_csv_stops_at_unknown_key_example :
  let g := load_globals (Config None None None None) in
  let fs : filesystem := {[ "data.csv" := Rows [row "9" "Old" "1" "2" "3"] ]} in
  write_csv g ([row "1" "Asha" "90" "80" "70"]
               ++ ({[ "Rollno" := VStr "2"; "grade" := VStr "A" ]} : record)
                  :: [row "3" "Mira" "70" "70" "70"]) fs
  = (Exn (ValueError "dict contains fields not in fieldnames"),
     <[ "data.csv" := Rows (stored <$> [row "1" "Asha" "90" "80" "70"]) ]> fs).
Proof.
  intros g fs.
  apply (write_csv_stops_at_unknown_key g).
  - vm_compute. discriminate.
  - apply Forall_singleton, columns_dom, (bool_decide_unpack _).
    vm_compute. reflexivity.
  - exists "grade". split.
    + unfold fieldnames. rewrite !elem_of_cons, elem_of_nil.
      intros [?|[?|[?|[?|[?|[]]]]]]; discriminate.
    + eexists. vm_compute. reflexivity.
Defined.

(** ** Reading and creating a record *)

Lemma read_loop_absent (rollno : string) (records : list record) :
  absent rollno records →
  read_loop rollno records
  = Ok (Json (JsonError ("Record with Rollno " +:+ rollno +:+ " not found"), 200)).
Proof.
  induction 1 as [|r records (v & Hv & Hne) _ IH]; simpl; [done|].
  unfold getitem. rewrite Hv. simpl. by rewrite decide_False.
Qed.

Lemma read_loop_found (rollno : string) (before : list record) (r : record)
    (after : list record) :
  absent rollno before → r !! "Rollno" = Some (VStr rollno) →
  read_loop rollno (before ++ r :: after) = Ok (JsonRow r).
Proof.
  intros Hbefore Hr.
  induction Hbefore as [|r' before (v & Hv & Hne) _ IH]; simpl.
  - unfold getitem. rewrite Hr. simpl. by rewrite decide_True.
  - unfold getitem at 1. rewrite Hv. simpl. by rewrite decide_False.
Qed.

Lemma read_record_file `{PyRuntime} (g : globals) (rollno : string) (fs : filesystem)
    (records : list record) :
  fs !! csv_file g = Some (Rows records) → rollno ≠ "" →
  read_record g (Some rollno) fs = read_loop rollno records.
Proof.
  intros Hfile Hne. unfold read_record, read_csv, py_open. rewrite Hfile.
  destruct rollno; done.
Qed.

(** X3. [read_record] answers with the first record that has the identifier,
    whatever follows it; when no record has it, the answer is the error
    text with status 200, not 404; without an identifier (or with an empty
    one) it renders the form and does not open the file. *)
Theorem read_record_first_match `{PyRuntime} (g : globals) (rollno : string)
    (fs : filesystem) (records : list record) :
  fs !! csv_file g = Some (Rows records) →
  rollno ≠ "" →
  (absent rollno records →
     read_record g (Some rollno) fs
     = Ok (Json (JsonError ("Record with Rollno " +:+ rollno +:+ " not found"), 200)))
  ∧ (∀ before r after,
       records = before ++ r :: after → absent rollno before →
       r !! "Rollno" = Some (VStr rollno) →
       read_record g (Some rollno) fs = Ok (JsonRow r))
  ∧ (∀ fs', read_record g None fs' = Ok (Template "read.html")
            ∧ read_record g (Some "") fs' = Ok (Template "read.html")).
Proof.
  intros Hfile Hne. split_and!.
  - intros Habsent. rewrite (read_record_file _ _ _ _ Hfile Hne).
    by apply read_loop_absent.
  - intros before r after -> Hbefore Hr.
    rewrite (read_record_file _ _ _ _ Hfile Hne). by apply read_loop_found.
  - done.
Qed.

Lemma read_record_first_match_example :
  let g := load_globals (Config None None None None) in
  let fs : filesystem :=
    {[ "data.csv" := Rows [row "1" "Asha" "90" "80" "70"; row "2" "Ravi" "100" "100" "99";
                           row "2" "Mira" "70" "70" "70"] ]} in
  @read_record csv_runtime g (Some "2") fs = Ok (JsonRow (row "2" "Ravi" "100" "100" "99")).
Proof.
  intros g fs.
  apply (proj1 (proj2 (@read_record_first_match csv_runtime g "2" fs _ eq_refl
                         ltac:(discriminate)))
           [row "1" "Asha" "90" "80" "70"] _ [row "2" "Mira" "70" "70" "70"] eq_refl).
  - apply Forall_singleton. exists (VStr "1"). split; [reflexivity | discriminate].
  - reflexivity.
Defined.


Lemma any_rollno_found (data : record) (id : string) (before : list record)
    (r : record) (after : list record) :
  data !! "Rollno" = Some (VStr id) → absent id before →
  r !! "Rollno" = Some (VStr id) →
  any_rollno data (before ++ r :: after) = Ok true.
Proof.
  intros Hdata Hbefore Hr.
  induction Hbefore as [|r' before (v & Hv & Hne) _ IH]; simpl.
  - unfold getitem. rewrite Hr, Hdata. simpl. by rewrite decide_True.
  - unfold getitem at 1 2. rewrite Hv, Hdata. simpl. by rewrite decide_False.
Qed.

Lemma identifiers_absent (id : string) (records : list record) :
  absent id records → VStr id ∉ identifiers records.
Proof.
  induction 1 as [|r records (v & Hv & Hne) _ IH]; [by apply not_elem_of_nil|].
  rewrite identifiers_cons, Hv. apply not_elem_of_cons. split; [congruence|done].
Qed.

Lemma form_columns (form : gmap string string) (key : string) :
  (∀ key, key ∉ fieldnames → form !! key = None) →
  key ∉ fieldnames → (VStr <$> form : record) !! key = None.
Proof. intros Hform Hkey. by rewrite lookup_fmap, Hform. Qed.

Lemma write_csv_rows (g : globals) (rows : list record) (fs : filesystem)
    (old : list record) :
  fs !! csv_file g = Some (Rows old) →
  Forall (λ r, ∀ key, key ∉ fieldnames → r !! key = None) rows →
  write_csv g rows fs = (Ok tt, <[csv_file g := Rows (stored <$> rows)]> fs).
Proof.
  intros Hfile Hrows. unfold write_csv. by rewrite Hfile, (writerows_columns _ Hrows).
Qed.

Lemma in_schema_Forall_columns (records : list record) :
  Forall in_schema records →
  Forall (λ r, ∀ key, key ∉ fieldnames → r !! key = None) records.
Proof.
  intros Hs. eapply Forall_impl; [exact Hs|]. intros r Hr key. by apply in_schema_columns.
Qed.



(** X5. [create_record] with an identifier that a record already has: the
    answer is 400 with the identifier in the text, and nothing is written. *)
Theorem create_record_duplicate `{PyRuntime} (g : globals) (form : gmap string string)
    (id : string) (fs : filesystem) (before : list record) (r : record)
    (after : list record) :
  fs !! csv_file g = Some (Rows (before ++ r :: after)) →
  form !! "Rollno" = Some id →
  absent id before →
  r !! "Rollno" = Some (VStr id) →
  create_record g "POST" form fs
  = (Ok (Json (JsonError ("Record with " +:+ id +:+ " already exists"), 400)), fs).
Proof.
  intros Hfile Hid Hbefore Hr.
  assert (Hdata : (VStr <$> form : record) !! "Rollno" = Some (VStr id))
    by by rewrite lookup_fmap, Hid.
  unfold create_record. rewrite decide_True by done.
  unfold read_csv, py_open. rewrite Hfile. simpl.
  rewrite (any_rollno_found _ _ _ _ _ Hdata Hbefore Hr).
  unfold getitem. by rewrite Hdata.
Qed.

Lemma create_record_duplicate_example :
  let g := load_globals (Config None None None None) in
  let fs : filesystem :=
    {[ "data.csv" := Rows [row "1" "Asha" "90" "80" "70"; row "2" "Ravi" "100" "100" "99"] ]} in
  @create_record csv_runtime g "POST" {[ "Rollno" := "2"; "name" := "Mira" ]} fs
  = (Ok (Json (JsonError "Record with 2 already exists", 400)), fs).
Proof.
  intros g fs.
  apply (@create_record_duplicate csv_runtime g _ "2" fs
           [row "1" "Asha" "90" "80" "70"] (row "2" "Ravi" "100" "100" "99") []).
  - reflexivity.
  - reflexivity.
  - apply Forall_singleton. exists (VStr "1"). split; [reflexivity | discriminate].
  - reflexivity.
Defined.

(** X6. Without a file, [create_record] and [read_record] do not answer: the
    response object that [read_csv] returned is iterated as if it were the
    list of records, the [TypeError] leaves the view, and no file is
    created. *)
Theorem create_and_read_without_file `{PyRuntime} (g : globals)
    (form : gmap string string) (rollno : string) (fs : filesystem) :
  fs !! csv_file g = None →
  create_record g "POST" form fs = (Exn TypeError, fs)
  ∧ (rollno ≠ "" → read_record g (Some rollno) fs = Exn TypeError).
Proof.
  intros Hfile. split.
  - unfold create_record. rewrite decide_True by done.
    unfold read_csv, py_open. by rewrite Hfile.
  - intros Hne. unfold read_record, read_csv, py_open. rewrite Hfile.
    by destruct rollno.
Qed.

Lemma create_and_read_without_file_example :
  let g := load_globals (Config None None None None) in
  @create_record csv_runtime g "POST" {[ "Rollno" := "1" ]} ∅ = (Exn TypeError, ∅).
Proof.
  intros g.
  apply (@create_and_read_without_file csv_runtime g {[ "Rollno" := "1" ]} "1" ∅).
  reflexivity.
Defined.

(** X7. A form without the field [Rollno]. On an empty file the comparison of
    identifiers is never evaluated: the row is written, with an empty
    identifier, and only then the view fails with [KeyError]. When the
    file has records, the comparison fails first and nothing is written. *)
Theorem create_record_without_rollno `{PyRuntime} (g : globals)
    (form : gmap string string) (fs : filesystem) (records : list record) :
  fs !! csv_file g = Some (Rows records) →
  form !! "Rollno" = None →
  (∀ key, key ∉ fieldnames → form !! key = None) →
  create_record g "POST" form fs
  = match records with
    | [] => (Exn (KeyError "Rollno"),
             <[csv_file g := Rows [stored (VStr <$> form)]]> fs)
    | _ :: _ => (Exn (KeyError "Rollno"), fs)
    end
  ∧ stored (VStr <$> form) !! "Rollno" = Some (VStr "").
Proof.
  intros Hfile Hid Hform.
  assert (Hdata : (VStr <$> form : record) !! "Rollno" = None)
    by by rewrite lookup_fmap, Hid.
  split.
  - unfold create_record. rewrite decide_True by done.
    unfold read_csv, py_open. rewrite Hfile. simpl.
    destruct records as [|r records]; simpl.
    + rewrite (write_csv_rows _ _ _ _ Hfile).
      * unfold getitem. by rewrite Hdata.
      * apply Forall_singleton. intros key Hkey. by apply form_columns.
    + unfold getitem. rewrite Hdata. by destruct (r !! "Rollno").
  - rewrite stored_lookup, decide_True by (unfold fieldnames; apply list_elem_of_here).
    by rewrite Hdata.
Qed.

Lemma create_record_without_rollno_example :
  let g := load_globals (Config None None None None) in
  let fs : filesystem := {[ "data.csv" := Rows [] ]} in
  let form : gmap string string := {[ "name" := "Ravi" ]} in
  @create_record csv_runtime g "POST" form fs
  = (Exn (KeyError "Rollno"), <[ "data.csv" := Rows [stored (VStr <$> form)] ]> fs).
Proof.
  intros g fs form.
  apply (@create_record_without_rollno csv_runtime g form fs []).
  - reflexivity.
  - reflexivity.
  - intros key Hkey. apply not_elem_of_dom. intros Hin. apply Hkey.
    assert (Hdom : dom form ⊆ list_to_set fieldnames)
      by (apply (bool_decide_unpack _); vm_compute; reflexivity).
    apply Hdom in Hin. by apply elem_of_list_to_set in Hin.
Defined.

(** ** Deleting and updating, then reading *)

Lemma in_schema_rollno (r : record) : in_schema r → ∃ s, r !! "Rollno" = Some (VStr s).
Proof.
  intros Hr. rewrite (in_schema_lookup r "Rollno" Hr).
  rewrite decide_True by (unfold fieldnames; apply list_elem_of_here). eauto.
Qed.

Lemma delete_filter_in_schema (rollno : string) (records : list record) :
  Forall in_schema records →
  delete_filter rollno records
  = Ok (filter (λ r, r !! "Rollno" ≠ Some (VStr rollno)) records).
Proof.
  induction 1 as [|r records Hr _ IH]; [done|]. simpl.
  destruct (in_schema_rollno r Hr) as [s Hs].
  unfold getitem. rewrite Hs, IH. simpl. rewrite filter_cons.
  destruct (decide (s = rollno)) as [->|Hne].
  - rewrite decide_False by (intros Hv; by apply Hv).
    by rewrite decide_False by (intros Hv; by apply Hv).
  - rewrite decide_True by congruence.
    by rewrite decide_True by congruence.
Qed.

Lemma absent_filter (rollno : string) (records : list record) :
  Forall in_schema records →
  absent rollno (filter (λ r, r !! "Rollno" ≠ Some (VStr rollno)) records).
Proof.
  intros Hschema. apply Forall_forall. intros r [Hr Hin]%list_elem_of_filter.
  destruct (in_schema_rollno r (proj1 (Forall_forall _ _) Hschema r Hin)) as [s Hs].
  exists (VStr s). split; [done|]. congruence.
Qed.

(** X8. On a file whose rows all have exactly the five cells of the
    header, [delete_record] with an identifier that is in the file: every
    record with that identifier goes (not only the first), the others
    stay, in their order; the answer is 200. After that the identifier is
    gone: [read_record] does not find it and a second [delete_record]
    answers 404 and writes nothing. *)
Theorem delete_record_removes_all `{PyRuntime} (g : globals) (rollno : string)
    (fs : filesystem) (records : list record) (r : record) :
  fs !! csv_file g = Some (Rows records) →
  Forall in_schema records →
  r ∈ records →
  r !! "Rollno" = Some (VStr rollno) →
  let kept := filter (λ r, r !! "Rollno" ≠ Some (VStr rollno)) records in
  let fs' := <[csv_file g := Rows kept]> fs in
  delete_record g rollno fs = ((JsonMessage "Record deleted successfully", 200), fs')
  ∧ (VStr rollno ∉ identifiers kept)
  ∧ length kept < length records
  ∧ delete_record g rollno fs' = ((JsonError "Record not found", 404), fs')
  ∧ (rollno ≠ "" →
       read_record g (Some rollno) fs'
       = Ok (Json (JsonError ("Record with Rollno " +:+ rollno +:+ " not found"), 200))).
Proof.
  intros Hfile Hschema Hin Hr kept fs'.
  assert (Habsent : absent rollno kept) by by apply absent_filter.
  assert (Hkept : Forall in_schema kept).
  { apply Forall_forall. intros r' [_ Hr']%list_elem_of_filter.
    by apply (proj1 (Forall_forall _ _) Hschema). }
  assert (Hlen : length kept < length records).
  { apply (length_filter_lt _ _ r); [done|]. by intros Hne. }
  assert (Hfile' : fs' !! csv_file g = Some (Rows kept))
    by (unfold fs'; by rewrite lookup_insert_eq).
  split_and!.
  - unfold delete_record, read_csv, py_open. rewrite Hfile. simpl.
    rewrite (delete_filter_in_schema _ _ Hschema). fold kept.
    rewrite decide_False by (intros Heq; rewrite Heq in Hlen; lia).
    rewrite (write_csv_rows _ _ _ _ Hfile) by by apply in_schema_Forall_columns.
    by rewrite (stored_in_schema _ Hkept).
  - by apply identifiers_absent.
  - done.
  - unfold delete_record, read_csv, py_open. rewrite Hfile'. simpl.
    rewrite (delete_filter_absent _ _ Habsent). by rewrite decide_True.
  - intros Hne. rewrite (read_record_file _ _ _ _ Hfile' Hne).
    by apply read_loop_absent.
Qed.

Lemma delete_record_removes_all_example :
  let g := load_globals (Config None None None None) in
  let records := [row "2" "Ravi" "100" "100" "99"; row "1" "Asha" "90" "80" "70";
                  row "2" "Mira" "70" "70" "70"] in
  let fs : filesystem := {[ "data.csv" := Rows records ]} in
  @delete_record csv_runtime g "2" fs
  = ((JsonMessage "Record deleted successfully", 200),
     <[ "data.csv" := Rows (filter (λ r, r !! "Rollno" ≠ Some (VStr "2")) records) ]> fs).
Proof.
  intros g records fs.
  apply (@delete_record_removes_all csv_runtime g "2" fs records
           (row "2" "Ravi" "100" "100" "99")).
  - reflexivity.
  - repeat (apply Forall_cons; split; [apply row_in_schema|]). apply Forall_nil_2.
  - apply list_elem_of_here.
  - reflexivity.
Defined.

(** X9. The keys of the payload outside the allowed set do not count at all:
    [update_record] gives the same answer and leaves the same file system
    with them as without them, on every file system. *)
Theorem update_record_ignores_other_keys `{PyRuntime} (g : globals)
    (rollno : string) (data : gmap string value) (fs : filesystem) :
  update_record g rollno data fs = update_record g rollno (filter_data data) fs
  ∧ (∀ key v, key ∉ valid_fields →
       update_record g rollno (<[key := v]> data) fs = update_record g rollno data fs).
Proof.
  assert (Hidem : ∀ d : gmap string value, filter_data (filter_data d) = filter_data d).
  { intros d. apply map_eq. intros key. rewrite !filter_data_lookup. by case_decide. }
  assert (Hfilter : ∀ d d' : gmap string value,
            filter_data d = filter_data d' →
            update_record g rollno d fs = update_record g rollno d' fs).
  { intros d d' Heq. unfold update_record. by rewrite Heq. }
  split.
  - apply Hfilter. by rewrite Hidem.
  - intros key v Hkey. apply Hfilter. apply map_eq. intros key'.
    rewrite !filter_data_lookup. case_decide as Hk'; [|done].
    rewrite lookup_insert_ne; [done|]. by intros ->.
Qed.



(** ** More on the runs of the worker pool *)

Section runs.
Context `{PyRuntime}.

Lemma chars_nonempty (r : record) (e : exn) : chars (error_message r e) ≠ [].
Proof. unfold error_message. simpl. discriminate. Qed.

(** A chunk that does not crash its worker adds at least one element. *)
Lemma items_nonempty (chunk : list record) :
  chunk ≠ [] → (∀ e, student_average chunk ≠ Exn e) → items chunk ≠ [].
Proof.
  intros Hne Hok. unfold items.
  destruct (records_parsed_or_failure chunk)
    as [[ds Hds]|(before & ds & r & after & e & -> & Hds & He)].
  - rewrite (student_average_parsed _ _ Hds). simpl.
    apply Forall2_length in Hds. destruct chunk; [done|]. by destruct ds.
  - pose proof (Hok e) as Hne'.
    rewrite (student_average_first_failure _ _ _ _ _ Hds He) in Hne' |- *.
    destruct e; try done; apply chars_nonempty.
Qed.

Lemma chunks_of_nonempty (records : list record) (c : list record) :
  c ∈ chunks_of records → c ≠ [].
Proof.
  intros [k Hk]%list_elem_of_lookup. unfold chunks_of in Hk.
  rewrite enqueue_chunks_lookup in Hk by apply chunk_size_pos.
  case_decide as Hlt; [|done]. injection Hk as <-. intros Hnil.
  apply (f_equal length) in Hnil. rewrite length_take, length_drop in Hnil.
  pose proof (chunk_size_pos 10 records). simpl in Hnil. lia.
Qed.

Lemma no_crash_chunks (records : list record) :
  Forall (λ r, average_record r ≠ Exn TypeError) records →
  ∀ c e, c ∈ chunks_of records → student_average c ≠ Exn e.
Proof.
  intros Hnocrash c e Hc He.
  apply student_average_Exn in He as (_ & r & Hr & Hbad).
  eapply (proj1 (Forall_forall _ _) Hnocrash r); [|done].
  rewrite <- (chunks_of_concat records). by eapply elem_of_concat_intro.
Qed.

Lemma bind_items_nonempty (records : list record) :
  records ≠ [] →
  Forall (λ r, average_record r ≠ Exn TypeError) records →
  chunks_of records ≫= items ≠ [].
Proof.
  intros Hne Hnocrash.
  destruct (chunks_of records) as [|c l] eqn:Hchunks.
  { exfalso. apply Hne. by rewrite <- (chunks_of_concat records), Hchunks. }
  assert (Hc : c ∈ chunks_of records) by (rewrite Hchunks; constructor).
  rewrite bind_cons. intros [Hnil _]%app_eq_nil. revert Hnil.
  apply items_nonempty; [by eapply chunks_of_nonempty|].
  intros e. by apply (no_crash_chunks records).
Qed.

Lemma no_crash_answer (g : globals) (fs : filesystem) (records : list record)
    (sched : list nat) (resp : result response) :
  fs !! csv_file g = Some (Rows records) →
  records ≠ [] →
  Forall (λ r, average_record r ≠ Exn TypeError) records →
  average_scores g fs sched = Some resp →
  ∃ out, resp = Ok (JsonAverages out, 200) ∧ out ≡ₚ chunks_of records ≫= items.
Proof.
  intros Hfile Hne Hnocrash Hres.
  rewrite (average_scores_unfold _ _ _ _ Hfile Hne) in Hres. simpl in Hres.
  destruct (joined _) eqn:Hjoined; [|done]. injection Hres as <-.
  destruct (completed_run g records sched Hjoined) as (taken & Hchunks & Hout & Hq).
  rewrite (Hq Hnocrash), app_nil_r in Hchunks. rewrite <- Hchunks in Hout.
  exists (results (run sched (start_workers g records))). split; [|done].
  unfold respond. destruct (results _) as [|i out]; [|done].
  exfalso. apply (bind_items_nonempty records Hne Hnocrash).
  by apply Permutation_nil.
Qed.
End runs.

(** X11. When no numeric cell is [None], every run after which
    [average_scores] returns gives status 200 and the same elements, up to
    their order: what two schedules return differs by a permutation and
    nothing else. Records that fail on their text do not change this:
    their chunks add the characters of their message. *)
Theorem schedules_agree `{PyRuntime} (g : globals) (fs : filesystem)
    (records : list record) :
  fs !! csv_file g = Some (Rows records) →
  records ≠ [] →
  Forall (λ r, average_record r ≠ Exn TypeError) records →
  (∀ sched resp, average_scores g fs sched = Some resp →
     ∃ out, resp = Ok (JsonAverages out, 200) ∧ out ≡ₚ chunks_of records ≫= items)
  ∧ (∀ sched sched' resp resp',
       average_scores g fs sched = Some resp →
       average_scores g fs sched' = Some resp' →
       ∃ out out', resp = Ok (JsonAverages out, 200)
                   ∧ resp' = Ok (JsonAverages out', 200) ∧ out ≡ₚ out').
Proof.
  intros Hfile Hne Hnocrash. split.
  - intros sched resp. by apply no_crash_answer.
  - intros sched sched' resp resp' Hres Hres'.
    destruct (no_crash_answer _ _ _ _ _ Hfile Hne Hnocrash Hres) as (out & -> & Hout).
    destruct (no_crash_answer _ _ _ _ _ Hfile Hne Hnocrash Hres') as (out' & -> & Hout').
    exists out, out'. split_and!; [done|done|]. by rewrite Hout, Hout'.
Qed.

Lemma schedules_agree_example :
  ∃ out,
    (Ok (JsonAverages
           (IDict (Derived (VStr "1") (VStr "Asha") 80%float)
            :: chars ("Error processing record {'Rollno': '2', 'name': 'Ravi', "
                      +:+ "'english': 'abc', 'maths': '80', 'science': '70'}: "
                      +:+ "could not convert string to float: 'abc'")),
         200) : result response)
    = Ok (JsonAverages out, 200)
    ∧ out ≡ₚ chunks_of [row "1" "Asha" "90" "80" "70"; row "2" "Ravi" "abc" "80" "70"]
              ≫= @items csv_runtime.
Proof.
  apply (proj1 (@schedules_agree csv_runtime (load_globals (Config None None None None))
                  {[ "data.csv" := Rows [row "1" "Asha" "90" "80" "70";
                                         row "2" "Ravi" "abc" "80" "70"] ]}
                  [row "1" "Asha" "90" "80" "70"; row "2" "Ravi" "abc" "80" "70"]
                  ltac:(apply lookup_singleton_eq) ltac:(discriminate)
                  ltac:(repeat (apply Forall_cons; split; [vm_compute; discriminate|]);
                        apply Forall_nil_2))
           (sequential_schedule 7 10)).
  vm_compute. reflexivity.
Defined.

(** ** The order of the elements returned *)

Section order.
Context `{PyRuntime}.

(** All along a run, [results] is the concatenation of what the chunks
    processed so far have added, chunk after chunk, in the order in which
    their workers finished them. *)
Lemma pool_order_step (chunks : list (list record)) (i : nat) (p p' : pool) :
  (∃ taken, chunks ≡ₚ taken ++ held (threads p) ++ queue p
            ∧ results p = taken ≫= items) →
  pool_step i p = Some p' →
  ∃ taken, chunks ≡ₚ taken ++ held (threads p') ++ queue p'
           ∧ results p' = taken ≫= items.
Proof.
  intros (taken & Hchunks & Hres) Hstep.
  destruct p as [q res ts]. unfold pool_step in Hstep. simpl in *.
  destruct (ts !! i) as [t|] eqn:Hi; [|done]. simpl in Hstep.
  destruct (thread_split ts i t Hi) as (l1 & l2 & -> & Hins).
  rewrite held_middle in Hchunks.
  destruct t as [| |c| |e]; simpl in Hstep.
  - destruct q as [|c q]; injection Hstep as <-; simpl;
      rewrite Hins, held_middle; by exists taken.
  - destruct q as [|c q]; [done|]. injection Hstep as <-. simpl.
    rewrite Hins, held_middle. exists taken. split; [|done].
    rewrite Hchunks. move_chunk.
  - assert (Htaken : chunks ≡ₚ (taken ++ [c]) ++ (held l1 ++ held l2) ++ q).
    { rewrite Hchunks. move_chunk. }
    assert (Hsingle : [c] ≫= items = items c).
    { change ([c] ≫= items) with (items c ++ []). apply app_nil_r. }
    assert (Hitems : items c = match student_average c with
                               | Ok r => extend_items r
                               | Exn _ => []
                               end) by done.
    destruct (student_average c) as [r|e] eqn:Hr; injection Hstep as <-;
      simpl; rewrite Hins, held_middle; simpl; exists (taken ++ [c]).
    + split; [done|]. by rewrite bind_app, Hres, Hsingle, Hitems.
    + split; [done|]. by rewrite bind_app, Hres, Hsingle, Hitems, app_nil_r.
  - done.
  - done.
Qed.

Lemma pool_order_run (chunks : list (list record)) (sched : list nat) (p : pool) :
  (∃ taken, chunks ≡ₚ taken ++ held (threads p) ++ queue p
            ∧ results p = taken ≫= items) →
  ∃ taken, chunks ≡ₚ taken ++ held (threads (run sched p)) ++ queue (run sched p)
           ∧ results (run sched p) = taken ≫= items.
Proof.
  revert p. induction sched as [|i sched IH]; intros p Hp; [done|].
  unfold run. simpl. apply IH.
  destruct (pool_step i p) as [p'|] eqn:Hstep; simpl; [|done].
  by eapply pool_order_step.
Qed.
End order.

(** X12. The list that [average_scores] returns is made of whole chunks: it is
    the concatenation, in some order of the chunks that were processed, of
    what each chunk added. So the averages of the records of one chunk are
    next to each other and in the order of the file; across chunks the
    order is that in which the workers finished. When no numeric cell is
    [None], every chunk is in it. *)
Theorem output_is_chunkwise `{PyRuntime} (g : globals) (fs : filesystem)
    (records : list record) (sched : list nat) (out : list item) (status : nat) :
  fs !! csv_file g = Some (Rows records) →
  average_scores g fs sched = Some (Ok (JsonAverages out, status)) →
  ∃ taken,
    out = taken ≫= items
    ∧ taken ⊆+ chunks_of records
    ∧ (Forall (λ r, average_record r ≠ Exn TypeError) records →
         taken ≡ₚ chunks_of records).
Proof.
  intros Hfile Hres.
  destruct (average_scores_averages _ _ _ _ _ _ Hfile Hres) as (Hjoined & <- & _).
  destruct (completed_run g records sched Hjoined) as (_ & _ & _ & Hq).
  assert (Hstart : ∃ taken,
            chunks_of records
            ≡ₚ taken ++ held (threads (start_workers g records))
                     ++ queue (start_workers g records)
            ∧ results (start_workers g records) = taken ≫= items).
  { exists []. split; [|done]. simpl.
    replace (held (replicate 10 AtTest)) with (@nil (list record)) by done.
    done. }
  destruct (pool_order_run _ sched _ Hstart) as (taken & Hchunks & Hout).
  rewrite (joined_held _ Hjoined) in Hchunks. simpl in Hchunks.
  exists taken. split_and!.
  - done.
  - rewrite Hchunks. by apply submseteq_inserts_r.
  - intros Hnocrash. by rewrite Hchunks, (Hq Hnocrash), app_nil_r.
Qed.

Lemma output_is_chunkwise_example :
  ∃ taken,
    IDict (Derived (VStr "1") (VStr "Asha") 80%float)
    :: chars ("Error processing record {'Rollno': '2', 'name': 'Ravi', "
              +:+ "'english': 'abc', 'maths': '80', 'science': '70'}: "
              +:+ "could not convert string to float: 'abc'")
    = taken ≫= @items csv_runtime
    ∧ taken ⊆+ chunks_of [row "1" "Asha" "90" "80" "70"; row "2" "Ravi" "abc" "80" "70"].
Proof.
  destruct (@output_is_chunkwise csv_runtime (load_globals (Config None None None None))
              {[ "data.csv" := Rows [row "1" "Asha" "90" "80" "70";
                                     row "2" "Ravi" "abc" "80" "70"] ]}
              [row "1" "Asha" "90" "80" "70"; row "2" "Ravi" "abc" "80" "70"]
              (sequential_schedule 7 10) _ 200 ltac:(apply lookup_singleton_eq)
              ltac:(vm_compute; reflexivity)) as (taken & Hout & Hsub & _).
  by exists taken.
Defined.

(** ** The sequential run *)

Section sequential.
Context `{PyRuntime}.

(** A thread that runs alone and does not crash empties the queue, adds
    the contribution of each chunk in the order of the queue, and leaves
    its loop. *)
Lemma run_solo_exact (q : list (list record)) (res : list item) (ts : list thread)
    (k i : nat) :
  (∀ c e, c ∈ q → student_average c ≠ Exn e) →
  i < length ts → 3 * length q + 1 ≤ k →
  run (replicate k i) (Pool q res (<[i:=AtTest]> ts))
  = Pool [] (res ++ q ≫= items) (<[i:=Finished]> ts).
Proof.
  intros Hok Hi. revert res k.
  induction q as [|c q IH]; intros res k Hk.
  - destruct k as [|k]; [simpl in Hk; lia|].
    simpl. unfold run. simpl. rewrite pool_step_insert by done. simpl.
    rewrite app_nil_r. by apply run_terminated.
  - do 3 (destruct k as [|k]; [simpl in Hk; lia|]).
    assert (Hitems : items c = match student_average c with
                               | Ok r => extend_items r
                               | Exn _ => []
                               end) by done.
    rewrite bind_cons, app_assoc.
    remember (q ≫= items) as rest eqn:Hrest.
    simpl. unfold run. simpl.
    rewrite pool_step_insert by done. simpl.
    rewrite pool_step_insert by done. simpl.
    rewrite pool_step_insert by done. simpl.
    destruct (student_average c) as [r|e] eqn:Hr; simpl.
    + fold (run (replicate k i) (Pool q (res ++ extend_items r) (<[i:=AtTest]> ts))).
      rewrite IH.
      * by rewrite Hitems, Hrest.
      * intros c' e' Hc'. apply Hok. by apply list_elem_of_further.
      * simpl in Hk. lia.
    + exfalso. by apply (Hok c e (list_elem_of_here _ _)).
Qed.

Lemma run_sequential_empty (m : nat) (finished : list thread) (res : list item)
    (steps : nat) :
  1 ≤ steps →
  run (seq (length finished) m ≫= replicate steps)
      (Pool [] res (finished ++ replicate m AtTest))
  = Pool [] res (finished ++ replicate m Finished).
Proof.
  intros Hsteps. revert finished.
  induction m as [|m IH]; intros finished; [done|].
  simpl seq. rewrite bind_cons, run_app.
  pose proof (run_solo_exact [] res (finished ++ replicate (S m) AtTest) steps
                (length finished)) as Hsolo.
  rewrite list_insert_id in Hsolo
    by (rewrite lookup_app_r, Nat.sub_diag by lia; done).
  rewrite Hsolo.
  - rewrite app_nil_r.
    replace (<[length finished:=Finished]> (finished ++ replicate (S m) AtTest))
      with ((finished ++ [Finished]) ++ replicate m AtTest).
    + replace (S (length finished)) with (length (finished ++ [Finished]))
        by (rewrite length_app; simpl; lia).
      rewrite IH. by rewrite <- app_assoc.
    + rewrite <- (Nat.add_0_r (length finished)) at 1.
      rewrite insert_app_r. simpl. by rewrite <- app_assoc.
  - intros c e Hc. by apply elem_of_nil in Hc.
  - rewrite length_app. simpl. lia.
  - simpl. lia.
Qed.

Lemma run_sequential_exact (g : globals) (records : list record) :
  Forall (λ r, average_record r ≠ Exn TypeError) records →
  run (sequential_schedule (3 * length records + 1) 10) (start_workers g records)
  = Pool [] (chunks_of records ≫= items) (replicate 10 Finished).
Proof.
  intros Hnocrash. unfold sequential_schedule, start_workers, start_pool.
  change (seq 0 10) with (0 :: seq 1 9). rewrite bind_cons, run_app.
  fold (chunks_of records).
  pose proof (run_solo_exact (chunks_of records) [] (replicate 10 AtTest)
                (3 * length records + 1) 0) as Hsolo.
  rewrite list_insert_id in Hsolo by done.
  rewrite Hsolo.
  - simpl app.
    apply (run_sequential_empty 9 [Finished] (chunks_of records ≫= items)
             (3 * length records + 1)).
    lia.
  - intros c e Hc. by apply (no_crash_chunks records).
  - simpl. lia.
  - pose proof (enqueue_chunks_count records (chunk_size 10 records)
                  (chunk_size_pos _ _)).
    unfold chunks_of. lia.
Qed.
End sequential.

(** ** A record that fails and the rest of the run (C1) *)




(** X13. When the workers run one after the other and no numeric cell is
    [None], the first worker processes every chunk, and [average_scores]
    returns the contributions of the chunks in the order of the file. When
    every record parses, that is the list of the averages, one per record,
    in the order of the records. *)
Theorem sequential_run_keeps_order `{PyRuntime} (g : globals) (fs : filesystem)
    (records : list record) :
  fs !! csv_file g = Some (Rows records) →
  records ≠ [] →
  Forall (λ r, average_record r ≠ Exn TypeError) records →
  average_scores g fs (sequential_schedule (3 * length records + 1) 10)
  = Some (Ok (JsonAverages (chunks_of records ≫= items), 200))
  ∧ (Forall (λ r, parses r = true) records →
       chunks_of records ≫= items = IDict <$> parsed records
       ∧ length (parsed records) = length records).
Proof.
  intros Hfile Hne Hnocrash. split.
  - rewrite (average_scores_unfold _ _ _ _ Hfile Hne). cbv zeta.
    rewrite (run_sequential_exact g records Hnocrash). simpl.
    unfold respond.
    pose proof (bind_items_nonempty records Hne Hnocrash) as Hitems.
    by destruct (chunks_of records ≫= items).
  - intros Hparse.
    destruct (all_parse_clean records Hparse) as (_ & Hclean & _ & Hlen).
    split; [|done]. by rewrite items_bind_clean, chunks_of_concat.
Qed.

Lemma sequential_run_keeps_order_example :
  let g := load_globals (Config None None None None) in
  let records := [row "1" "Asha" "90" "80" "70"; row "2" "Ravi" "100" "100" "99"] in
  let fs : filesystem := {[ "data.csv" := Rows records ]} in
  @average_scores csv_runtime g fs (sequential_schedule 7 10)
  = Some (Ok (JsonAverages (chunks_of records ≫= @items csv_runtime), 200)).
Proof.
  intros g records fs.
  apply (@sequential_run_keeps_order csv_runtime g fs records).
  - apply lookup_singleton_eq.
  - discriminate.
  - repeat (apply Forall_cons; split; [vm_compute; discriminate|]). apply Forall_nil_2.
Defined.

(** X14. For every file, with or without records, there is a schedule under
    which [average_scores] returns: the sequential one. *)
Theorem average_scores_can_return `{PyRuntime} (g : globals) (fs : filesystem)
    (records : list record) :
  fs !! csv_file g = Some (Rows records) →
  ∃ r, average_scores g fs (sequential_schedule (3 * length records + 1) 10)
       = Some (Ok r).
Proof. apply average_scores_completes. Qed.

Lemma average_scores_can_return_example :
  ∃ r, @average_scores csv_runtime (load_globals (Config None None None None))
         {[ "data.csv" := Rows [row "1" "Asha" "90" "80" "70"; {[ "Rollno" := VStr "2" ]}] ]}
         (sequential_schedule 7 10)
       = Some (Ok r).
Proof.
  apply (@average_scores_can_return csv_runtime (load_globals (Config None None None None))
           {[ "data.csv" := Rows [row "1" "Asha" "90" "80" "70"; {[ "Rollno" := VStr "2" ]}] ]}
           [row "1" "Asha" "90" "80" "70"; {[ "Rollno" := VStr "2" ]}]).
  apply lookup_singleton_eq.
Defined.

(** ** The answer "No results computed" *)

Lemma average_record_TypeError `{PyRuntime} (r : record) :
  average_record r = Exn TypeError →
  ∃ key, key ∈ ["english"; "maths"; "science"] ∧ r !! key = Some VNone.
Proof.
  unfold average_record, getitem, py_float, mbind, result_bind.
  repeat (case_match; try done); intros Heq; simplify_eq;
    (eexists; split; [|eassumption]);
    rewrite !elem_of_cons; auto.
Qed.

Lemma crash_or_not `{PyRuntime} (records : list record) :
  Forall (λ r, average_record r ≠ Exn TypeError) records
  ∨ ∃ r, r ∈ records ∧ average_record r = Exn TypeError.
Proof.
  induction records as [|r records [IH|(r' & Hr' & Hbad)]].
  - left. constructor.
  - destruct (average_record r) as [d|e] eqn:Hr.
    + left. constructor; [by rewrite Hr|done].
    + destruct (decide (e = TypeError)) as [->|Hne].
      * right. exists r. split; [constructor|done].
      * left. constructor; [rewrite Hr; congruence|done].
  - right. exists r'. split; [by constructor|done].
Qed.

(** X15. [average_scores] answers "No results computed" (status 500) only when
    a worker crashed, that is when some record has [None] as one of its
    three marks (a row shorter than the header). Records whose marks are
    text that is no number never give this answer. *)
Theorem no_results_needs_a_missing_cell `{PyRuntime} (g : globals) (fs : filesystem)
    (records : list record) (sched : list nat) :
  fs !! csv_file g = Some (Rows records) →
  average_scores g fs sched = Some (Ok (JsonError "No results computed", 500)) →
  ∃ r key, r ∈ records ∧ key ∈ ["english"; "maths"; "science"] ∧ r !! key = Some VNone.
Proof.
  intros Hfile Hres.
  assert (Hne : records ≠ []).
  { intros ->. unfold average_scores, read_csv, py_open in Hres.
    rewrite Hfile in Hres. discriminate. }
  destruct (crash_or_not records) as [Hnocrash|(r & Hr & Hbad)].
  - destruct (no_crash_answer _ _ _ _ _ Hfile Hne Hnocrash Hres) as (out & Hout & _).
    discriminate.
  - destruct (average_record_TypeError r Hbad) as (key & Hkey & Hnone).
    by exists r, key.
Qed.

Lemma no_results_needs_a_missing_cell_example :
  let short : record := {[ "Rollno" := VStr "1"; "name" := VStr "Asha"; "english" := VStr "90";
                           "maths" := VNone; "science" := VNone ]} in
  ∃ r key, r ∈ [short] ∧ key ∈ ["english"; "maths"; "science"] ∧ r !! key = Some VNone.
Proof.
  intros short.
  apply (@no_results_needs_a_missing_cell csv_runtime
           (load_globals (Config None None None None))
           {[ "data.csv" := Rows [short] ]} [short] (sequential_schedule 4 10)).
  - apply lookup_singleton_eq.
  - vm_compute. reflexivity.
Defined.

(** ** A request that never returns *)

Section waiting.
Context `{PyRuntime}.

Lemma waits_for_ever_step (i : nat) (p p' : pool) :
  waits_for_ever p → pool_step i p = Some p' → waits_for_ever p'.
Proof.
  intros [Hq Hget] Hstep. destruct p as [q res ts]. simpl in Hq. subst q.
  unfold pool_step in Hstep. simpl in *.
  destruct (ts !! i) as [t|] eqn:Hi; [|done]. simpl in Hstep.
  destruct (thread_split ts i t Hi) as (l1 & l2 & -> & Hins).
  assert (Hkeep : ∀ t', t ≠ AtGet → AtGet ∈ l1 ++ t' :: l2).
  { intros t' Hne. rewrite elem_of_app, elem_of_cons in Hget.
    rewrite elem_of_app, elem_of_cons.
    destruct Hget as [?|[Heq|?]];
      [by left | by rewrite Heq in Hne | by right; right]. }
  destruct t as [| |c| |e]; simpl in Hstep; try done.
  - injection Hstep as <-. split; [done|]. simpl. rewrite Hins. by apply Hkeep.
  - destruct (student_average c); injection Hstep as <-;
      (split; [done|]); simpl; rewrite Hins; by apply Hkeep.
Qed.

Lemma waits_for_ever_run (sched : list nat) (p : pool) :
  waits_for_ever p → waits_for_ever (run sched p).
Proof.
  revert p. induction sched as [|i sched IH]; intros p Hp; [done|].
  unfold run. simpl. apply IH.
  destruct (pool_step i p) as [p'|] eqn:Hstep; simpl; [|done].
  by eapply waits_for_ever_step.
Qed.

Lemma waits_for_ever_not_joined (p : pool) : waits_for_ever p → joined p = false.
Proof.
  intros [_ Hget]. destruct (joined p) eqn:Hjoined; [|done].
  by destruct (joined_threads p AtGet Hjoined Hget) as [?|[e ?]].
Qed.

Lemma pool_step_middle (q : list (list record)) (res : list item)
    (pre : list thread) (t : thread) (post : list thread) :
  pool_step (length pre) (Pool q res (pre ++ t :: post))
  = '(t', q', res') ← worker t q res; Some (Pool q' res' (pre ++ t' :: post)).
Proof.
  unfold pool_step. simpl. rewrite list_lookup_middle by done. simpl.
  destruct (worker t q res) as [[[t' q'] res']|]; simpl; [|done].
  rewrite <- (Nat.add_0_r (length pre)) at 1. by rewrite insert_app_r.
Qed.

(** [m] workers in a row pass the test of the loop while the queue is not
    empty. *)
Lemma run_tests (m : nat) (pre post : list thread) (q : list (list record))
    (res : list item) :
  q ≠ [] →
  run (seq (length pre) m) (Pool q res (pre ++ replicate m AtTest ++ post))
  = Pool q res (pre ++ replicate m AtGet ++ post).
Proof.
  intros Hq. revert pre.
  induction m as [|m IH]; intros pre; [done|].
  simpl. unfold run. simpl. rewrite pool_step_middle. simpl.
  destruct q as [|c q]; [done|]. simpl.
  fold (run (seq (S (length pre)) m)
            (Pool (c :: q) res (pre ++ AtGet :: replicate m AtTest ++ post))).
  replace (S (length pre)) with (length (pre ++ [AtGet]))
    by (rewrite length_app; simpl; lia).
  replace (pre ++ AtGet :: replicate m AtTest ++ post)
    with ((pre ++ [AtGet]) ++ replicate m AtTest ++ post)
    by by rewrite <- app_assoc.
  rewrite IH. by rewrite <- app_assoc.
Qed.

(** As many workers as there are chunks take one chunk each. *)
Lemma run_gets (cs : list (list record)) (pre post : list thread)
    (q : list (list record)) (res : list item) :
  run (seq (length pre) (length cs))
      (Pool (cs ++ q) res (pre ++ replicate (length cs) AtGet ++ post))
  = Pool q res (pre ++ (Holding <$> cs) ++ post).
Proof.
  revert pre. induction cs as [|c cs IH]; intros pre; [done|].
  simpl. unfold run. simpl. rewrite pool_step_middle. simpl.
  fold (run (seq (S (length pre)) (length cs))
            (Pool (cs ++ q) res
                  (pre ++ Holding c :: replicate (length cs) AtGet ++ post))).
  replace (S (length pre)) with (length (pre ++ [Holding c]))
    by (rewrite length_app; simpl; lia).
  replace (pre ++ Holding c :: replicate (length cs) AtGet ++ post)
    with ((pre ++ [Holding c]) ++ replicate (length cs) AtGet ++ post)
    by by rewrite <- app_assoc.
  rewrite IH. by rewrite <- app_assoc.
Qed.
End waiting.

(** X16. The race between [q.empty()] and [q.get()]. Once the queue is empty
    while a worker has passed the test of its loop and not yet called
    [q.get()], that worker waits for ever and [average_scores] never
    returns, whatever the schedule does next. For a file of one to nine
    records this can happen: let one worker more than there are chunks
    pass the test, then let the others take the chunks. *)
Theorem average_scores_can_hang `{PyRuntime} (g : globals) (fs : filesystem)
    (records : list record) :
  fs !! csv_file g = Some (Rows records) →
  (∀ sched0 sched,
     records ≠ [] →
     waits_for_ever (run sched0 (start_workers g records)) →
     average_scores g fs (sched0 ++ sched) = None)
  ∧ (1 ≤ length records ≤ 9 →
     ∀ sched,
       average_scores g fs ((seq 0 (S (length records)) ++ seq 0 (length records)) ++ sched)
       = None).
Proof.
  intros Hfile.
  assert (Hhang : ∀ sched0 sched,
            records ≠ [] →
            waits_for_ever (run sched0 (start_workers g records)) →
            average_scores g fs (sched0 ++ sched) = None).
  { intros sched0 sched Hne Hwait.
    rewrite (average_scores_unfold _ _ _ _ Hfile Hne). cbv zeta.
    rewrite run_app.
    by rewrite (waits_for_ever_not_joined _ (waits_for_ever_run sched _ Hwait)). }
  split; [done|].
  intros Hlen sched. apply Hhang; [by destruct records; simpl in *; [lia|]|].
  set (n := length records).
  assert (Hcs : chunk_size 10 records = 1).
  { unfold chunk_size. fold n. rewrite Nat.div_small by lia. done. }
  assert (Hchunks : length (chunks_of records) = n).
  { unfold chunks_of. rewrite enqueue_chunks_length by apply chunk_size_pos.
    rewrite Hcs. unfold ceil_div. fold n.
    replace (n + 1 - 1) with n by lia. apply Nat.div_1_r. }
  rewrite run_app. unfold start_workers, start_pool. fold (chunks_of records).
  assert (Hn : 1 ≤ n ≤ 9) by (unfold n; lia).
  assert (Hthreads : replicate 10 AtTest
                     = [] ++ replicate (S n) AtTest ++ replicate (9 - n) AtTest).
  { replace 10 with (S n + (9 - n)) by lia. by rewrite replicate_add. }
  rewrite Hthreads.
  rewrite (run_tests (S n) [] _ (chunks_of records) [])
    by (intros Hnil; rewrite Hnil in Hchunks; simpl in Hchunks; lia).
  replace (replicate (S n) AtGet) with (replicate n AtGet ++ [AtGet])
    by (rewrite replicate_S_end; done).
  rewrite <- (app_assoc (replicate n AtGet)).
  rewrite <- Hchunks at 1 2.
  rewrite <- (app_nil_r (chunks_of records)) at 2.
  rewrite (run_gets (chunks_of records) [] _ [] []).
  split; [done|]. simpl. rewrite elem_of_app. right. constructor.
Qed.

Lemma average_scores_can_hang_example :
  @average_scores csv_runtime (load_globals (Config None None None None))
     {[ "data.csv" := Rows [row "1" "Asha" "90" "80" "70"; row "2" "Ravi" "100" "100" "99"] ]}
     ((seq 0 3 ++ seq 0 2) ++ [0; 1; 2; 3; 4; 5; 6; 7; 8; 9])
  = None.
Proof.
  apply (proj2 (@average_scores_can_hang csv_runtime
                  (load_globals (Config None None None None))
                  {[ "data.csv" := Rows [row "1" "Asha" "90" "80" "70";
                                         row "2" "Ravi" "100" "100" "99"] ]}
                  [row "1" "Asha" "90" "80" "70"; row "2" "Ravi" "100" "100" "99"]
                  ltac:(apply lookup_singleton_eq))).
  simpl. lia.
Defined.

(** ** How many chunks *)

(** X17. With the ten workers of [average_scores]: fewer than ten records are
    queued one by one; ten records or more make at least ten and at most
    nineteen chunks. *)
Theorem chunk_count_bounds (records : list record) :
  let n := length records in
  let chunks := chunks_of records in
  (n < 10 → length chunks = n ∧ Forall (λ c, length c = 1) chunks)
  ∧ (10 ≤ n → 10 ≤ length chunks ≤ 19).
Proof.
  intros n chunks.
  assert (Hlen : length chunks = ceil_div n (chunk_size 10 records)).
  { unfold chunks, chunks_of. by rewrite enqueue_chunks_length by apply chunk_size_pos. }
  split.
  - intros Hn.
    assert (Hcs : chunk_size 10 records = 1).
    { unfold chunk_size. fold n. rewrite Nat.div_small by lia. done. }
    split.
    + rewrite Hlen, Hcs. unfold ceil_div.
      replace (n + 1 - 1) with n by lia. apply Nat.div_1_r.
    + apply Forall_forall. intros c [k Hk]%list_elem_of_lookup.
      unfold chunks, chunks_of in Hk. rewrite Hcs in Hk.
      rewrite enqueue_chunks_lookup in Hk by lia.
      case_decide as Hlt; [|done]. injection Hk as <-.
      rewrite length_take, length_drop. fold n. lia.
  - intros Hn. rewrite Hlen. unfold chunk_size, ceil_div. fold n.
    clear Hlen. clearbody n.
    pose proof (Nat.div_mod n 10 ltac:(lia)) as Hdiv.
    pose proof (Nat.mod_upper_bound n 10 ltac:(lia)) as Hmod.
    assert (Hc : 1 ≤ n / 10) by (apply Nat.div_le_lower_bound; lia).
    rewrite Nat.max_l by lia.
    split.
    + apply Nat.div_le_lower_bound; lia.
    + assert (Hlt : (n + n / 10 - 1) / (n / 10) < 20);
        [apply Nat.Div0.div_lt_upper_bound; lia | lia].
Qed.

(** ** The three results of [student_average] *)

(** X18. [student_average] returns a list exactly when every record parses,
    and then the list has one derived record per record, in the order of
    the records. Otherwise the first record that does not parse decides:
    a message that names it when it fails on a missing key or on a text,
    a [TypeError] that leaves the function when it fails on a cell that is
    [None]. The records after it are not looked at. *)
Theorem student_average_outcomes `{PyRuntime} (records : list record) :
  (∀ averages,
     student_average records = Ok (Averages averages)
     ↔ Forall2 (λ r d, average_record r = Ok d) records averages)
  ∧ (∀ msg,
       student_average records = Ok (Message msg)
       ↔ ∃ before r after e,
           records = before ++ r :: after ∧ clean before = true
           ∧ average_record r = Exn e ∧ e ≠ TypeError
           ∧ msg = error_message r e)
  ∧ (∀ e,
       student_average records = Exn e
       ↔ e = TypeError
         ∧ ∃ before r after,
             records = before ++ r :: after ∧ clean before = true
             ∧ average_record r = Exn TypeError).
Proof.
  assert (Hfail : ∀ before ds r after e,
            Forall2 (λ r d, average_record r = Ok d) before ds →
            average_record r = Exn e →
            student_average (before ++ r :: after)
            = if decide (e = TypeError) then Exn TypeError
              else Ok (Message (error_message r e))).
  { intros before ds r after e Hds He.
    rewrite (student_average_first_failure _ _ _ _ _ Hds He).
    by destruct (average_record_Exn _ _ He) as [->|[[k ->]|[m ->]]]. }
  split_and!.
  - intros averages. split; [apply student_average_Averages_inv|].
    apply student_average_parsed.
  - intros msg. split.
    + intros Hres.
      destruct (records_parsed_or_failure records)
        as [[ds Hds]|(before & ds & r & after & e & -> & Hds & He)].
      * by rewrite (student_average_parsed _ _ Hds) in Hres.
      * rewrite (Hfail _ _ _ _ _ Hds He) in Hres.
        case_decide as Hty; [done|]. injection Hres as <-.
        exists before, r, after, e. split_and!; try done.
        apply clean_Forall2. by exists ds.
    + intros (before & r & after & e & -> & [ds Hds]%clean_Forall2 & He & Hty & ->).
      rewrite (Hfail _ _ _ _ _ Hds He). by rewrite decide_False.
  - intros e. split.
    + intros Hres.
      destruct (records_parsed_or_failure records)
        as [[ds Hds]|(before & ds & r & after & e' & -> & Hds & He)].
      * by rewrite (student_average_parsed _ _ Hds) in Hres.
      * rewrite (Hfail _ _ _ _ _ Hds He) in Hres.
        case_decide as Hty; [|done]. injection Hres as <-. subst e'.
        split; [done|]. exists before, r, after. split_and!; try done.
        apply clean_Forall2. by exists ds.
    + intros (-> & before & r & after & -> & [ds Hds]%clean_Forall2 & He).
      rewrite (Hfail _ _ _ _ _ Hds He). by rewrite decide_True.
Qed.

(** ** The pages that call the service *)

Lemma response_status_of_update `{PyRuntime} (g : globals) (rollno : string)
    (data : gmap string value) (fs : filesystem) :
  (update_record g rollno data fs).1.2 = 200
  ∨ (update_record g rollno data fs).1.2 = 404
  ∨ (update_record g rollno data fs).1.2 = 500.
Proof.
  unfold update_record, except_exception.
  repeat (case_match; simplify_eq/=; auto).
Qed.

(** X19. [update_page], when its request is served by [update_record]: the
    page reports success exactly when [update_record] answered 200; a
    "not found" of the service is passed on as an error text with status
    200; any failure inside the service (status 500) is passed on as "An
    unexpected error occurred" with status 500. The form field [rollno]
    that names the record is sent along with the other fields and is not
    written to the record. *)
Theorem update_page_passes_on `{PyRuntime} (g : globals) (form : gmap string string)
    (rollno : string) (fs : filesystem)
    (put_request : option string → gmap string string → option nat) :
  form !! "rollno" = Some rollno →
  put_request (Some rollno) form
  = Some (update_record g rollno (VStr <$> form) fs).1.2 →
  let status := (update_record g rollno (VStr <$> form) fs).1.2 in
  update_page "POST" form put_request
  = Json (if decide (status = 200)
          then (JsonMessage ("Record with Rollno " +:+ rollno +:+ " updated successfully"), 200)
          else if decide (status = 404)
          then (JsonError ("Record with Rollno " +:+ rollno +:+ " not found"), 200)
          else (JsonError "An unexpected error occurred", 500))
  ∧ update_record g rollno (VStr <$> form) fs
    = update_record g rollno (VStr <$> delete "rollno" form) fs.
Proof.
  intros Hrollno Hput status. split.
  - unfold update_page. rewrite decide_True by done. rewrite Hrollno, Hput.
    fold status.
    destruct (response_status_of_update g rollno (VStr <$> form) fs)
      as [Hs|[Hs|Hs]]; fold status in Hs; rewrite Hs; done.
  - rewrite fmap_delete.
    assert (Hfilter : filter_data (delete "rollno" (VStr <$> form : gmap string value))
                      = filter_data (VStr <$> form)).
    { apply map_eq. intros key. rewrite !filter_data_lookup.
      case_decide as Hkey; [|done].
      rewrite lookup_delete_ne; [done|]. intros <-.
      unfold valid_fields in Hkey. rewrite !elem_of_cons, elem_of_nil in Hkey.
      destruct Hkey as [?|[?|[?|[?|[?|[]]]]]]; discriminate. }
    unfold update_record. by rewrite Hfilter.
Qed.

Lemma update_page_passes_on_example :
  let g := load_globals (Config None None None None) in
  let form : gmap string string := {[ "rollno" := "3"; "name" := "Mira" ]} in
  let fs : filesystem := {[ "data.csv" := Rows [row "1" "Asha" "90" "80" "70"] ]} in
  update_page "POST" form
    (λ rollno data, Some (@update_record csv_runtime g "3" (VStr <$> form) fs).1.2)
  = Json (JsonError "Record with Rollno 3 not found", 200).
Proof.
  intros g form fs.
  pose proof (proj1 (@update_page_passes_on csv_runtime g form "3" fs
                       (λ rollno data,
                          Some (@update_record csv_runtime g "3" (VStr <$> form) fs).1.2)
                       ltac:(reflexivity) ltac:(reflexivity))) as Hpage.
  rewrite Hpage.
  assert (Hs : (@update_record csv_runtime g "3" (VStr <$> form) fs).1.2 = 404)
    by (vm_compute; reflexivity).
  by rewrite Hs.
Defined.

Lemma response_status_of_delete_unreadable `{PyRuntime} (g : globals)
    (rollno : string) (fs : filesystem) :
  fs !! csv_file g = None ∨ fs !! csv_file g = Some Locked →
  delete_record g rollno fs = ((JsonError "An error occurred", 500), fs).
Proof.
  intros [Hfile|Hfile]; unfold delete_record, read_csv, py_open; by rewrite Hfile.
Qed.

(** X20. [remove_page], when its request is served by [delete_record] and the
    file cannot be read (it does not exist, or cannot be opened): the
    service answers 500, which is neither of the two statuses the page
    looks for, and the page renders its form again, as for a [GET]:
    nobody is told that nothing was deleted. *)
Theorem remove_page_hides_failure `{PyRuntime} (g : globals)
    (form : gmap string string) (rollno : string) (fs : filesystem)
    (delete_request : option string → option nat) :
  form !! "rollno" = Some rollno →
  delete_request (Some rollno) = Some (delete_record g rollno fs).1.2 →
  fs !! csv_file g = None ∨ fs !! csv_file g = Some Locked →
  remove_page "POST" form delete_request = Template "remove.html"
  ∧ remove_page "POST" form delete_request = remove_page "GET" form delete_request
  ∧ (delete_record g rollno fs).2 = fs.
Proof.
  intros Hrollno Hdelete Hfile.
  rewrite (response_status_of_delete_unreadable g rollno fs Hfile) in Hdelete |- *.
  simpl in Hdelete.
  unfold remove_page. rewrite decide_True by done.
  rewrite decide_False by discriminate.
  by rewrite Hrollno, Hdelete.
Qed.

Lemma remove_page_hides_failure_example :
  let g := load_globals (Config None None None None) in
  let form : gmap string string := {[ "rollno" := "3" ]} in
  remove_page "POST" form (λ rollno, Some (@delete_record csv_runtime g "3" ∅).1.2)
  = Template "remove.html".
Proof.
  intros g form.
  apply (@remove_page_hides_failure csv_runtime g form "3" ∅
           (λ rollno, Some (@delete_record csv_runtime g "3" ∅).1.2)).
  - reflexivity.
  - reflexivity.
  - left. reflexivity.
Defined.
